(** * GSEApy: the numeric core of [gseapy/algorithm.py]

    A shallow embedding of the enrichment-score engines
    ([enrichment_score], [enrichment_score_tensor]), the ranking metrics
    ([ranking_metric], [rank_metric_tensor]), the significance engine
    ([gsea_pval], [normalize], [gsea_significance]) and the two pipelines
    ([gsea_compute], [gsea_compute_ss]), followed by the properties of the
    specification that these definitions settle.

    Conventions of the embedding.
    - A numpy [float64] is a [num]: a finite value carried as an exact
      rational, or one of the IEEE special values [PInf], [NInf], [NaN].
      Rounding and the sign of zero are not modelled; what is modelled is
      what the properties below depend on: numpy's arithmetic never raises
      (a division by zero yields an infinity or [NaN]), whereas a division
      of Python floats raises [ZeroDivisionError].
    - A Python exception is a [Raise] in the [result] monad.
    - A [RandomState] is an explicit generator state threaded through every
      shuffle.
    - A three-dimensional array [T] whose reductions all run along axis 1 is
      stored fibre-wise: [T[i, :, k]] is the [k]-th element of the [i]-th
      element of the nested list. *)

From Stdlib Require Import QArith Qabs Qround Qminmax Qpower ZArith Lia Lqa.
From stdpp Require Import base option list gmap strings sorting.


(** ** Exceptions *)

Inductive exn : Type :=
  | UnboundLocalError
  | ZeroDivisionError
  | ValueError
  | IndexError
  | KeyError
  | NameError
  | SystemExit.

Inductive result (A : Type) : Type :=
  | Ok (a : A)
  | Raise (e : exn).
Arguments Ok {A} a.
Arguments Raise {A} e.

#[global] Instance result_ret : MRet result := fun _ a => Ok a.
#[global] Instance result_bind : MBind result := fun _ _ k r =>
  match r with
  | Ok a => k a
  | Raise e => Raise e
  end.

#[global] Instance result_fmap : FMap result := fun _ _ f r =>
  match r with
  | Ok a => Ok (f a)
  | Raise e => Raise e
  end.

(** [try: ... except: d], with a bare [except] that catches everything. *)
Definition try_except {A : Type} (r : result A) (d : A) : A :=
  match r with
  | Ok a => a
  | Raise _ => d
  end.

Fixpoint rmapM {A B : Type} (f : A -> result B) (l : list A) : result (list B) :=
  match l with
  | [] => Ok []
  | a :: l' => b ← f a; bs ← rmapM f l'; Ok (b :: bs)
  end.

(** ** Numbers *)

Inductive num : Type :=
  | Fin (q : Q)
  | PInf
  | NInf
  | NaN.

Definition Qltb (a b : Q) : bool := negb (Qle_bool b a).
Definition Qis0 (a : Q) : bool := Qeq_bool a 0.

(** Finite results are kept in lowest terms, so that equal values are equal
    terms. *)
Definition fin (q : Q) : num := Fin (Qred q).

Definition of_nat (n : nat) : num := Fin (Z.of_nat n # 1).
Definition of_bool (b : bool) : num := if b then Fin 1 else Fin 0.

Definition nneg (a : num) : num :=
  match a with
  | Fin q => fin (- q)
  | PInf => NInf
  | NInf => PInf
  | NaN => NaN
  end.

Definition nabs (a : num) : num :=
  match a with
  | Fin q => fin (Qabs q)
  | PInf | NInf => PInf
  | NaN => NaN
  end.

Definition nadd (a b : num) : num :=
  match a, b with
  | NaN, _ | _, NaN => NaN
  | Fin x, Fin y => fin (x + y)
  | PInf, NInf | NInf, PInf => NaN
  | PInf, _ | _, PInf => PInf
  | NInf, _ | _, NInf => NInf
  end.

Definition nsub (a b : num) : num := nadd a (nneg b).

(** An infinity times or over a finite value: the sign follows the finite
    operand, and [inf * 0] is [NaN]. *)
Definition inf_times (pos : bool) (y : Q) : num :=
  if Qis0 y then NaN
  else if xorb pos (Qltb 0 y) then NInf else PInf.

Definition nmul (a b : num) : num :=
  match a, b with
  | NaN, _ | _, NaN => NaN
  | Fin x, Fin y => fin (x * y)
  | PInf, Fin y | Fin y, PInf => inf_times true y
  | NInf, Fin y | Fin y, NInf => inf_times false y
  | PInf, PInf | NInf, NInf => PInf
  | PInf, NInf | NInf, PInf => NInf
  end.

(** numpy's true division: [0/0] is [NaN], [x/0] an infinity, nothing is
    raised. *)
Definition ndiv (a b : num) : num :=
  match a, b with
  | NaN, _ | _, NaN => NaN
  | Fin x, Fin y =>
      if Qis0 y then
        if Qis0 x then NaN else if Qltb 0 x then PInf else NInf
      else fin (x / y)
  | Fin _, (PInf | NInf) => Fin 0
  | (PInf | NInf), (PInf | NInf) => NaN
  | PInf, Fin y => if Qltb y 0 then NInf else PInf
  | NInf, Fin y => if Qltb y 0 then PInf else NInf
  end.

(** Comparisons: every comparison with [NaN] is false. *)
Definition nltb (a b : num) : bool :=
  match a, b with
  | NaN, _ | _, NaN => false
  | Fin x, Fin y => Qltb x y
  | NInf, (Fin _ | PInf) => true
  | Fin _, PInf => true
  | _, _ => false
  end.

Definition nleb (a b : num) : bool :=
  match a, b with
  | NaN, _ | _, NaN => false
  | Fin x, Fin y => Qle_bool x y
  | NInf, _ => true
  | _, PInf => true
  | _, _ => false
  end.

Definition ngtb (a b : num) : bool := nltb b a.
Definition ngeb (a b : num) : bool := nleb b a.

Definition neqb (a b : num) : bool :=
  match a, b with
  | Fin x, Fin y => Qeq_bool x y
  | PInf, PInf | NInf, NInf => true
  | _, _ => false
  end.

Definition is_nan (a : num) : bool :=
  match a with NaN => true | _ => false end.

(** [np.sum] of a vector. *)
Definition nsum (l : list num) : num := foldl nadd (Fin 0) l.

(** [np.cumsum] of a vector. *)
Fixpoint cumsum_from (acc : num) (l : list num) : list num :=
  match l with
  | [] => []
  | x :: l' => let s := nadd acc x in s :: cumsum_from s l'
  end.
Definition cumsum (l : list num) : list num := cumsum_from (Fin 0) l.

(** [np.max] and [np.min] propagate [NaN]; on an empty vector they raise
    [ValueError]. *)
Definition nmax2 (a b : num) : num :=
  if is_nan a then NaN else if is_nan b then NaN
  else if nltb a b then b else a.
Definition nmin2 (a b : num) : num :=
  if is_nan a then NaN else if is_nan b then NaN
  else if nltb b a then b else a.

Definition np_max (l : list num) : result num :=
  match l with
  | [] => Raise ValueError
  | x :: l' => Ok (foldl nmax2 x l')
  end.
Definition np_min (l : list num) : result num :=
  match l with
  | [] => Raise ValueError
  | x :: l' => Ok (foldl nmin2 x l')
  end.

(** [np.mean]: the mean of an empty vector is [NaN] (numpy warns, and does
    not raise). *)
Definition np_mean (l : list num) : num :=
  ndiv (nsum l) (of_nat (length l)).

(** ** Functions of the C library

    [x ** w] for a fractional exponent, the square root of a non-square and
    the binary logarithm have no rational value; they are taken from a
    [libm].  Where the value is rational (an integer exponent, a perfect
    square, the special cases of IEEE 754) the model computes it. *)

Record libm : Type := {
  frac_pow : Q -> Q -> Q;
  irr_sqrt : Q -> Q;
  pos_log2 : Q -> Q
}.

Definition int_of (w : Q) : option Z :=
  let w' := Qred w in
  if Pos.eqb (Qden w') 1 then Some (Qnum w') else None.

Definition Qsqrt_exact (q : Q) : option Q :=
  let q' := Qred q in
  let n := Z.sqrt (Qnum q') in
  let d := Z.sqrt (Zpos (Qden q')) in
  if Z.eqb (n * n) (Qnum q') && Z.eqb (d * d) (Zpos (Qden q'))
  then Some (n # Z.to_pos d) else None.

Section Libm.
Variable M : libm.

(** [x ** w] of numpy ([pow] of IEEE 754). *)
Definition npow (x : num) (w : Q) : num :=
  if Qis0 w then Fin 1
  else match x with
       | NaN => NaN
       | PInf => if Qltb 0 w then PInf else Fin 0
       | NInf =>
           if Qltb 0 w then
             match int_of w with
             | Some n => if Z.odd n then NInf else PInf
             | None => PInf
             end
           else Fin 0
       | Fin q =>
           if Qis0 q then (if Qltb 0 w then Fin 0 else PInf)
           else match int_of w with
                | Some n => fin (Qpower q n)
                | None =>
                    if Qltb q 0 then NaN
                    else if Qeq_bool q 1 then Fin 1
                    else fin (frac_pow M q w)
                end
       end.

(** [np.sqrt]. *)
Definition nsqrt (x : num) : num :=
  match x with
  | NaN | NInf => NaN
  | PInf => PInf
  | Fin q =>
      if Qltb q 0 then NaN
      else match Qsqrt_exact q with
           | Some r => fin r
           | None => fin (irr_sqrt M q)
           end
  end.

(** [np.log2]. *)
Definition nlog2 (x : num) : num :=
  match x with
  | NaN | NInf => NaN
  | PInf => PInf
  | Fin q =>
      if Qltb q 0 then NaN
      else if Qis0 q then NInf
      else if Qeq_bool q 1 then Fin 0
      else fin (pos_log2 M q)
  end.
End Libm.

(** ** Random state

    [rk_interval max st] draws an integer of [[0, max]] and advances the
    state; [seed_rng] is [RandomState(seed)] for an integer seed. *)

Record random_source : Type := {
  rng : Type;
  seed_rng : Z -> rng;
  rk_interval : nat -> rng -> nat * rng
}.

(** [x[i], x[j] = x[j], x[i]] *)
Definition swap {A : Type} (i j : nat) (x : list A) : list A :=
  match x !! i, x !! j with
  | Some a, Some b => <[i := b]> (<[j := a]> x)
  | _, _ => x
  end.

Section Shuffle.
Variable G : random_source.

(** [RandomState.shuffle]: [for i in reversed(range(1, n)): j =
    rk_interval(i); x[i], x[j] = x[j], x[i]], in place. *)
Fixpoint shuffle_from {A : Type} (i : nat) (x : list A) (st : rng G)
  : list A * rng G :=
  match i with
  | O => (x, st)
  | S i' =>
      let '(j, st') := rk_interval G i st in
      shuffle_from i' (swap i j x) st'
  end.

Definition shuffle {A : Type} (x : list A) (st : rng G) : list A * rng G :=
  shuffle_from (length x - 1) x st.

(** [for arr in rows: rs.shuffle(arr)]. *)
Fixpoint shuffle_each {A : Type} (rows : list (list A)) (st : rng G)
  : list (list A) * rng G :=
  match rows with
  | [] => ([], st)
  | r :: rows' =>
      let '(r', st1) := shuffle r st in
      let '(rs', st2) := shuffle_each rows' st1 in
      (r' :: rs', st2)
  end.
End Shuffle.

(** ** Gene lists and gene sets *)

Definition gene : Type := string.

(** [np.in1d(gene_list, gene_set, assume_unique=True)], and [np.isin] on
    one row: the membership mask.  This is what numpy returns when neither
    argument repeats an item (the invariant of the data model, and what
    [assume_unique] asserts), and on small gene sets in any case (numpy
    then compares item by item). *)
Definition in1d (gene_list gene_set : list gene) : list bool :=
  map (fun g => bool_decide (g ∈ gene_set)) gene_list.

(** [np.flatnonzero(tag).tolist()]. *)
Fixpoint flatnonzero_from (i : nat) (tag : list bool) : list nat :=
  match tag with
  | [] => []
  | b :: tag' =>
      if b then i :: flatnonzero_from (S i) tag'
      else flatnonzero_from (S i) tag'
  end.
Definition flatnonzero (tag : list bool) : list nat := flatnonzero_from 0 tag.

(** [sorted(gmt.keys())] and [gmt[key]]. *)
Definition sorted_keys (gmt : gmap string (list gene)) : list string :=
  merge_sort String.le (map fst (map_to_list gmt)).

Definition getitem (gmt : gmap string (list gene)) (key : string)
  : result (list gene) :=
  match gmt !! key with
  | Some gs => Ok gs
  | None => Raise KeyError
  end.

(** [es = np.where(np.abs(max) > np.abs(min), max, min)] *)
Definition extremum (mx mn : num) : num :=
  if ngtb (nabs mx) (nabs mn) then mx else mn.

(** Broadcasting a vector against an axis of length [n]: a vector of that
    length is taken as it is, a vector of one item is repeated, any other
    is a [ValueError].  (An axis of length 1 under a longer vector, which
    numpy would stretch, is outside the data model: the gene list and its
    correlations have the same length.) *)
Definition broadcast_to {A : Type} (n : nat) (v : list A) : result (list A) :=
  if decide (length v = n) then Ok v
  else match v with
       | [x] => Ok (replicate n x)
       | _ => Raise ValueError
       end.

(** ** Arrays as the engines receive them *)

Inductive ndarray (A : Type) : Type :=
  | Arr1 (v : list A)          (* ndim = 1 *)
  | Arr2 (m : list (list A))   (* ndim = 2, one list per row *)
  | ArrN.                      (* any other dimensionality *)
Arguments Arr1 {A} v.
Arguments Arr2 {A} m.
Arguments ArrN {A}.

(** A local variable of a function is unbound until its first assignment. *)
Definition read_local {A : Type} (v : option A) : result A :=
  match v with
  | Some a => Ok a
  | None => Raise UnboundLocalError
  end.

(** [a[..., -1]] and [a[..., :-1]] on the last axis. *)
Definition last_item {A : Type} (l : list A) : result A :=
  match last l with
  | Some x => Ok x
  | None => Raise IndexError
  end.
Definition but_last {A : Type} (l : list A) : list A := take (length l - 1) l.

(** What [enrichment_score] returns: [(es, hit_ind, RES)] when [esnull] is
    not set, the list of null scores otherwise. *)
Inductive es_output : Type :=
  | Observed (es : num) (hit_ind : list nat) (RES : list num)
  | Nulls (es : list num).

Section Engines.
Variable M : libm.
Variable G : random_source.

(** *** [enrichment_score] *)

(** Lines 67 to 77 on one row of [tag_indicator]. *)
Definition es_of_row (N : nat) (tag_indicator : list bool)
    (correl_vector : list num) : result (num * list num) :=
  let tag := map of_bool tag_indicator in
  let Nhint := nsum tag in
  let sum_correl_tag := nsum (zip_with nmul correl_vector tag) in
  let no_tag_indicator := map (nsub (Fin 1)) tag in
  let Nmiss := nsub (of_nat N) Nhint in
  let norm_tag := ndiv (Fin 1) sum_correl_tag in
  let norm_no_tag := ndiv (Fin 1) Nmiss in
  let RES :=
    cumsum (zip_with nsub
              (map (fun x => nmul x norm_tag) (zip_with nmul tag correl_vector))
              (map (fun x => nmul x norm_no_tag) no_tag_indicator)) in
  max_ES ← np_max RES;
  min_ES ← np_min RES;
  Ok (extremum max_ES min_ES, RES).

Definition enrichment_score (gene_list gene_set : list gene)
    (weighted_score_type : Q) (correl_vector : list num)
    (esnull : option nat) (rs : rng G) : result (es_output * rng G) :=
  let N := length gene_list in
  let tag_indicator := in1d gene_list gene_set in
  correl_vector ←
    (if Qis0 weighted_score_type then Ok (replicate N (Fin 1))
     else broadcast_to N
            (map (fun c => npow M (nabs c) weighted_score_type) correl_vector));
  let hit_ind := flatnonzero tag_indicator in
  match esnull with
  | Some (S k) =>
      let '(tags, rs') := shuffle_each G (replicate (S k) tag_indicator) rs in
      es ← rmapM (fun tag => fst <$> es_of_row N tag correl_vector) tags;
      Ok (Nulls es, rs')
  | _ =>
      '(es, RES) ← es_of_row N tag_indicator correl_vector;
      Ok (Observed es hit_ind RES, rs)
  end.

(** *** [enrichment_score_tensor] *)

(** Lines 161 to 163 on one fibre [[i, :, k]]: [tag] is the fibre of
    [perm_tag_tensor], [cor] the correlations broadcast against it. *)
Definition res_fibre (weighted_score_type : Q) (cor : list num)
    (tag : list bool) : list num :=
  let perm_tag := map of_bool tag in
  let no_tag := map (nsub (Fin 1)) perm_tag in
  let rank_alpha :=
    map (fun x => npow M x weighted_score_type) (zip_with nmul perm_tag cor) in
  let P_GW_denominator := nsum rank_alpha in
  let P_NG_denominator := nsum no_tag in
  cumsum (zip_with nsub
            (map (fun x => ndiv x P_GW_denominator) rank_alpha)
            (map (fun x => ndiv x P_NG_denominator) no_tag)).

(** Lines 167 to 173 on one fibre. *)
Definition es_of_fibre (single : bool) (RES : list num) : result num :=
  if single then Ok (nsum RES)
  else
    esmax ← np_max RES;
    esmin ← np_min RES;
    Ok (extremum esmax esmin).

(** Line 135: the copies [[m, :, k]], [k < nperm], of each row of
    [tag_indicator] are shuffled in the order [m], then [k]; the copy
    [[m, :, nperm]] is left as it is. *)
Fixpoint shuffle_tags (nperm : nat) (tag_indicator : list (list bool))
    (st : rng G) : list (list (list bool)) * rng G :=
  match tag_indicator with
  | [] => ([], st)
  | tag :: tags' =>
      let '(perms, st1) := shuffle_each G (replicate nperm tag) st in
      let '(rest, st2) := shuffle_tags nperm tags' st1 in
      ((perms ++ [tag]) :: rest, st2)
  end.

Definition enrichment_score_tensor (gene_mat : ndarray gene)
    (cor_mat : ndarray num) (gene_sets : gmap string (list gene))
    (weighted_score_type : Q) (nperm : nat) (scale single : bool)
    (rs : rng G)
  : result (list num * list (list num) * list (list nat) * list (list num)
            * rng G) :=
  (* [N] is a local name, assigned at line 128 only *)
  let N : option nat := None in
  let keys_sorted := gene_mat in
  let keys := sorted_keys gene_sets in
  cor_mat ←
    (if Qis0 weighted_score_type then
       n ← read_local N; Ok (Arr1 (replicate n (Fin 1)))
     else if Qltb 0 weighted_score_type then Ok cor_mat
     else Raise SystemExit);
  let cor_mat :=
    match cor_mat with
    | Arr1 v => Arr1 (map nabs v)
    | Arr2 m => Arr2 (map (map nabs) m)
    | ArrN => ArrN
    end in
  '(len_keys_sorted, hit_ind, cors, perm_tag_tensor, rs) ←
    match keys_sorted with
    | Arr1 keys_sorted =>
        let N := length keys_sorted in
        (* np.vstack of no array *)
        _ ← (if decide (keys = []) then Raise ValueError else Ok ());
        tag_indicator ←
          rmapM (fun key => gs ← getitem gene_sets key;
                            Ok (in1d keys_sorted gs)) keys;
        let hit_ind := map flatnonzero tag_indicator in
        (* np.apply_along_axis over no slice *)
        _ ← (if decide (nperm = 0) then Raise ValueError else Ok ());
        let '(perm_tag_tensor, rs) := shuffle_tags nperm tag_indicator rs in
        cor ← match cor_mat with
              | Arr1 v => broadcast_to N v
              | _ => Raise ValueError
              end;
        Ok (N, hit_ind, map (fun _ => cor) perm_tag_tensor,
            perm_tag_tensor, rs)
    | Arr2 keys_sorted =>
        (* np.dstack of no array *)
        _ ← (if decide (keys = []) then Raise ValueError else Ok ());
        (* np.dstack: axis 0 is the row of keys_sorted, axis 2 the key *)
        perm_tag_tensor ←
          rmapM (fun row =>
                   rmapM (fun key => gs ← getitem gene_sets key;
                                     Ok (in1d row gs)) keys) keys_sorted;
        hit_ind ←
          rmapM (fun fibres => tag ← last_item fibres; Ok (flatnonzero tag))
                perm_tag_tensor;
        cors ← match cor_mat with
               | Arr2 m =>
                   if decide (length m = length keys_sorted) then
                     rmapM (fun '(row, c) => broadcast_to (length row) c)
                           (zip keys_sorted m)
                   else Raise ValueError
               | _ => Raise ValueError
               end;
        Ok (length keys_sorted, hit_ind, cors, perm_tag_tensor, rs)
    | ArrN => Raise SystemExit
    end;
  let REStensor :=
    zip_with (fun cor fibres => map (res_fibre weighted_score_type cor) fibres)
             cors perm_tag_tensor in
  let REStensor :=
    if scale
    then map (map (map (fun x => ndiv x (of_nat len_keys_sorted)))) REStensor
    else REStensor in
  esmatrix ← rmapM (rmapM (es_of_fibre single)) REStensor;
  es ← rmapM last_item esmatrix;
  let esnull := map but_last esmatrix in
  RES ← rmapM last_item REStensor;
  Ok (es, esnull, hit_ind, RES, rs).
End Engines.

(** ** The engine of the test script

    [tests/test.ssgsea.gseapy.py] redefines [enrichment_score_tensor]: in
    classic mode the weights are [np.ones(cor_mat.shape)], the branch is
    taken on [cor_mat.ndim], and in two dimensions both matrices are
    transposed and the masks stacked on axis 0, so that axis 0 is the gene
    set and axis 2 the replicate.  Here a fibre [[i, :, k]] is kept with
    the correlations it is weighted by.  (The script does not import
    [sys]: its two [sys.exit(0)] raise [NameError].) *)

Module TestSsgsea.
Section Engine.
Variable M : libm.
Variable G : random_source.

Definition enrichment_score_tensor (gene_mat : ndarray gene)
    (cor_mat : ndarray num) (gene_sets : gmap string (list gene))
    (weighted_score_type : Q) (nperm : nat) (scale single : bool)
    (rs : rng G)
  : result (list num * list (list num) * list (list nat) * list (list num)
            * rng G) :=
  let keys := sorted_keys gene_sets in
  cor_mat ←
    (if Qis0 weighted_score_type then
       Ok match cor_mat with
          | Arr1 v => Arr1 (map (fun _ => Fin 1) v)
          | Arr2 m => Arr2 (map (map (fun _ => Fin 1)) m)
          | ArrN => ArrN
          end
     else if Qltb 0 weighted_score_type then Ok cor_mat
     else Raise NameError);
  let cor_mat :=
    match cor_mat with
    | Arr1 v => Arr1 (map nabs v)
    | Arr2 m => Arr2 (map (map nabs) m)
    | ArrN => ArrN
    end in
  '(len_gene_mat, hit_ind, perm_tag_tensor, rs) ←
    match cor_mat, gene_mat with
    | Arr1 cor_mat, Arr1 gene_mat =>
        let N := length gene_mat in
        _ ← (if decide (keys = []) then Raise ValueError else Ok ());
        tag_indicator ←
          rmapM (fun key => gs ← getitem gene_sets key;
                            Ok (in1d gene_mat gs)) keys;
        let hit_ind := map flatnonzero tag_indicator in
        _ ← (if decide (nperm = 0) then Raise ValueError else Ok ());
        let '(perm_tag_tensor, rs) := shuffle_tags G nperm tag_indicator rs in
        cor ← broadcast_to N cor_mat;
        Ok (N, hit_ind, map (map (fun tag => (cor, tag))) perm_tag_tensor, rs)
    | Arr2 cor_mat, Arr2 gene_mat =>
        (* after the transpositions, len(gene_mat) is the number of genes *)
        let N := match gene_mat with row :: _ => length row | [] => 0 end in
        _ ← (if decide (keys = []) then Raise ValueError else Ok ());
        _ ← (if decide (length cor_mat = length gene_mat)
             then Ok () else Raise ValueError);
        (* np.stack(..., axis=0): axis 0 is the key, axis 2 the replicate *)
        perm_tag_tensor ←
          rmapM (fun key =>
                   gs ← getitem gene_sets key;
                   rmapM (fun '(row, c) =>
                            cor ← broadcast_to (length row) c;
                            Ok (cor, in1d row gs))
                         (zip gene_mat cor_mat)) keys;
        hit_ind ←
          rmapM (fun fibres => '(_, tag) ← last_item fibres;
                               Ok (flatnonzero tag))
                perm_tag_tensor;
        Ok (N, hit_ind, perm_tag_tensor, rs)
    | Arr1 _, _ | Arr2 _, Arr1 _ => Raise IndexError
    | Arr2 _, ArrN => Raise ValueError
    | ArrN, _ => Raise NameError
    end;
  let REStensor :=
    map (map (fun '(cor, tag) => res_fibre M weighted_score_type cor tag))
        perm_tag_tensor in
  let REStensor :=
    if scale
    then map (map (map (fun x => ndiv x (of_nat len_gene_mat)))) REStensor
    else REStensor in
  esmatrix ← rmapM (rmapM (es_of_fibre single)) REStensor;
  es ← rmapM last_item esmatrix;
  let esnull := map but_last esmatrix in
  RES ← rmapM last_item REStensor;
  Ok (es, esnull, hit_ind, RES, rs).
End Engine.
End TestSsgsea.

(** ** Sorting and searching *)

(** The order numpy sorts by: [NaN] after everything else. *)
Definition np_lt (a b : num) : bool :=
  nltb a b || (is_nan b && negb (is_nan a)).

Definition np_le (a b : num) : Prop := np_lt b a = false.

#[global] Instance np_le_dec : RelDecision np_le.
Proof. intros a b. unfold np_le. apply _. Defined.

(** [np.sort] of a vector. *)
Definition np_sort (l : list num) : list num := merge_sort np_le l.

Definition by_value (x y : nat * num) : Prop := np_le (snd x) (snd y).

#[global] Instance by_value_dec : RelDecision by_value.
Proof. intros x y. unfold by_value. apply _. Defined.

(** [a.argsort()] of a vector: the positions in increasing order of value.
    (numpy's default sort is not stable; the model keeps equal values in
    their order.) *)
Definition argsort (l : list num) : list nat :=
  map fst (merge_sort by_value (imap (fun i x => (i, x)) l)).

(** Python's [sorted] on a list of floats: only [<] is consulted.  (With a
    [NaN] in the list the result of CPython depends on the details of its
    sort; the model is the insertion sort.) *)
Fixpoint py_insert (x : num) (l : list num) : list num :=
  match l with
  | [] => [x]
  | y :: l' => if nltb x y then x :: l else y :: py_insert x l'
  end.
Definition py_sorted (l : list num) : list num :=
  foldl (fun acc x => py_insert x acc) [] l.

(** [np.searchsorted(arr, v, side)]: the binary search of numpy, with
    [less] the test [mid_val < v] (left) or [mid_val <= v] (right) in
    numpy's order.  The interval shrinks at each step, so [length arr]
    steps are enough. *)
Inductive side : Type := Left | Right.

Fixpoint binsearch (less : num -> bool) (arr : list num)
    (fuel min_idx max_idx : nat) : nat :=
  match fuel with
  | O => min_idx
  | S fuel' =>
      if decide (min_idx < max_idx) then
        let mid_idx := min_idx + (max_idx - min_idx) / 2 in
        match arr !! mid_idx with
        | Some mid_val =>
            if less mid_val
            then binsearch less arr fuel' (S mid_idx) max_idx
            else binsearch less arr fuel' min_idx mid_idx
        | None => min_idx
        end
      else min_idx
  end.

Definition searchsorted (arr : list num) (v : num) (sd : side) : nat :=
  let less :=
    match sd with
    | Left => fun mid_val => np_lt mid_val v
    | Right => fun mid_val => negb (np_lt v mid_val)
    end in
  binsearch less arr (length arr) 0 (length arr).

(** ** The significance engine *)

(** [np.sum(cond, axis=1)] on one row. *)
Definition count_if (p : num -> bool) (row : list num) : num :=
  of_nat (length (filter (fun x => Is_true (p x)) row)).

(** [np.select([c1, c2], [x1, x2])]: the first choice whose condition
    holds, and 0 where none does. *)
Definition np_select (c1 c2 : bool) (x1 x2 : num) : num :=
  if c1 then x1 else if c2 then x2 else Fin 0.

(** The entry of [pval] for one gene set: [e] is its observed score and
    [row] its row of [esnull]. *)
Definition pval_entry (e : num) (row : list num) : num :=
  np_select (nltb e (Fin 0)) (ngeb e (Fin 0))
    (ndiv (count_if (fun x => nltb x e) row)
          (count_if (fun x => nltb x (Fin 0)) row))
    (ndiv (count_if (fun x => ngeb x e) row)
          (count_if (fun x => ngeb x (Fin 0)) row)).

(** [gsea_pval]: the [try] and its [except] are commented out in the
    source, so nothing is caught. *)
Definition gsea_pval (es : list num) (esnull : list (list num))
  : result (list num) :=
  if decide (length esnull = length es)
  then Ok (zip_with pval_entry es esnull)
  else Raise ValueError.

(** [normalize]: nothing in the body can raise, numpy's mean of an empty
    list is [NaN] with a warning. *)
Definition normalize (es : num) (enrNull : list num) : num :=
  try_except
    (if neqb es (Fin 0) then Ok (Fin 0)
     else if ngeb es (Fin 0) then
       let meanPos :=
         np_mean (filter (fun a => Is_true (ngeb a (Fin 0))) enrNull) in
       Ok (ndiv es meanPos)
     else
       let meanNeg :=
         np_mean (filter (fun a => Is_true (nltb a (Fin 0))) enrNull) in
       Ok (ndiv (nneg es) meanNeg))
    (Fin 0).

(** Division of Python floats. *)
Definition py_div (a b : Q) : result Q :=
  if Qis0 b then Raise ZeroDivisionError else Ok (Qred (a / b)).

Definition float (n : Z) : Q := n # 1.

Definition sentinel : Q := 1000000000.

(** The four counts of one round of the FDR loop (lines 549 to 558). *)
Record fdr_counts : Type := {
  allPos : Z;
  allHigherAndPos : Z;
  nesPos : Z;
  nesHigherAndPos : Z
}.

Definition counts_of (nvals nnes : list num) (nes : num) : fdr_counts :=
  let len l := Z.of_nat (length l) in
  let ss arr v sd := Z.of_nat (searchsorted arr v sd) in
  if ngeb nes (Fin 0) then
    {| allPos := len nvals - ss nvals (Fin 0) Left;
       allHigherAndPos := len nvals - ss nvals nes Left;
       nesPos := len nnes - ss nnes (Fin 0) Left;
       nesHigherAndPos := len nnes - ss nnes nes Left |}%Z
  else
    {| allPos := ss nvals (Fin 0) Left;
       allHigherAndPos := ss nvals nes Right;
       nesPos := ss nnes (Fin 0) Left;
       nesHigherAndPos := ss nnes nes Right |}.

Definition pi_norm (c : fdr_counts) : result Q :=
  py_div (float (allHigherAndPos c)) (float (allPos c)).
Definition pi_obs (c : fdr_counts) : result Q :=
  py_div (float (nesHigherAndPos c)) (float (nesPos c)).

(** Lines 559 to 566. *)
Definition fdr_of_counts (c : fdr_counts) : Q :=
  try_except
    (pi_norm ← pi_norm c;
     pi_obs ← pi_obs c;
     ratio ← py_div pi_norm pi_obs;
     Ok (if Qltb ratio 1 then ratio else 1%Q))
    sentinel.

(** Lines 501 to 531: the normalized scores and the normalized nulls.  The
    arithmetic of the [try] block is numpy's and cannot raise, so its
    [except] (zeros everywhere) is dead. *)
Definition normalized_scores (es : list num) (esnull : list (list num))
  : list num * list (list num) :=
  let esnull_meanPos :=
    map (fun enrNull =>
           np_mean (filter (fun a => Is_true (ngeb a (Fin 0))) enrNull)) esnull in
  let esnull_meanNeg :=
    map (fun enrNull =>
           np_mean (filter (fun a => Is_true (nltb a (Fin 0))) enrNull)) esnull in
  try_except
    (Ok (zip_with (fun e '(meanPos, meanNeg) =>
                     np_select (ngeb e (Fin 0)) (nltb e (Fin 0))
                       (ndiv e meanPos) (ndiv (nneg e) meanNeg))
                  es (zip esnull_meanPos esnull_meanNeg),
         zip_with (fun row '(pos, neg) =>
                     map (fun x =>
                            np_select (ngeb x (Fin 0)) (nltb x (Fin 0))
                              (ndiv x pos) (ndiv (nneg x) neg)) row)
                  esnull (zip esnull_meanPos esnull_meanNeg)))
    (map (fun _ => Fin 0) es, map (map (fun _ => Fin 0)) esnull).

Definition gsea_significance (enrichment_scores : list num)
    (enrichment_nulls : list (list num))
  : result (list (num * num * num * Q)) :=
  enrichmentPVals ← gsea_pval enrichment_scores enrichment_nulls;
  let '(nEnrichmentScores, nEnrichmentNulls) :=
    normalized_scores enrichment_scores enrichment_nulls in
  let nvals := np_sort (concat nEnrichmentNulls) in
  let nnes := py_sorted nEnrichmentScores in
  let fdrs := map (fun nes => fdr_of_counts (counts_of nvals nnes nes))
                  nEnrichmentScores in
  Ok (zip (zip (zip enrichment_scores nEnrichmentScores) enrichmentPVals) fdrs).

(** ** Expression data and ranking metrics *)

#[global] Instance num_inhabited : Inhabited num := populate NaN.

(** A [DataFrame] of numbers: one row per gene, one column per sample. *)
Record dataframe : Type := {
  index : list gene;
  columns : list string;
  values : list (list num)
}.

(** A [Series] of numbers. *)
Record series : Type := {
  s_index : list gene;
  s_values : list num
}.

(** The frame [ranking_metric] returns (its column [rank2] repeats
    [rank]). *)
Record rank_frame : Type := {
  gene_name : list gene;
  rank : list num
}.

(** [data[name].values] *)
Definition get_column (df : dataframe) (name : string) : result (list num) :=
  match list_find (fun c => c = name) (columns df) with
  | Some (j, _) => Ok (map (fun row => row !!! j) (values df))
  | None => Raise KeyError
  end.

(** [values.T] of a frame with [ncols] columns. *)
Definition transpose (ncols : nat) (rows : list (list num)) : list (list num) :=
  map (fun j => map (fun row => row !!! j) rows) (seq 0 ncols).

(** [a[mask]]: the items at the positions where the mask holds. *)
Definition select {A : Type} (mask : list bool) (l : list A) : list A :=
  map snd (filter (fun p => Is_true (fst p)) (zip mask l)).

Inductive method_name : Type :=
  | signal_to_noise
  | t_test
  | ratio_of_classes
  | diff_of_classes
  | log2_ratio_of_classes.

Definition method_of (method : string) : option method_name :=
  if decide (method = "signal_to_noise") then Some signal_to_noise
  else if decide (method = "t_test") then Some t_test
  else if decide (method = "ratio_of_classes") then Some ratio_of_classes
  else if decide (method = "diff_of_classes") then Some diff_of_classes
  else if decide (method = "log2_ratio_of_classes")
       then Some log2_ratio_of_classes
  else None.

(** Where pandas puts a value when sorting: [NaN] last, in either
    direction. *)
Definition pd_before (ascending : bool) (x y : gene * num) : Prop :=
  is_nan (snd y)
  || (negb (is_nan (snd x))
      && (if ascending then nleb (snd x) (snd y) else nleb (snd y) (snd x)))
  = true.

#[global] Instance pd_before_dec ascending : RelDecision (pd_before ascending).
Proof. intros x y. unfold pd_before. apply _. Defined.

Section Metrics.
Variable M : libm.
Variable G : random_source.

(** [ndarray.std]: the population standard deviation. *)
Definition np_std (l : list num) : num :=
  let m := np_mean l in
  nsqrt M (np_mean (map (fun x => npow M (nabs (nsub x m)) 2) l)).

(** The mean and the standard deviation of a pandas group: missing
    values are skipped, and the deviation is the sample one
    ([ddof = 1]). *)
Definition pd_mean (l : list num) : num :=
  np_mean (filter (fun x => ¬ Is_true (is_nan x)) l).

Definition pd_std (l : list num) : num :=
  let l := filter (fun x => ¬ Is_true (is_nan x)) l in
  let m := np_mean l in
  match l with
  | [] => NaN
  | _ :: rest =>
      nsqrt M (ndiv (nsum (map (fun x => npow M (nsub x m) 2) l))
                    (of_nat (length rest)))
  end.

(** The five formulas, written the same way at lines 205 to 215 and 299
    to 308; [denom] is what the [t_test] formula divides both variances
    by. *)
Definition class_metric (method : method_name) (denom : num)
    (mean_pos mean_neg std_pos std_neg : num) : num :=
  match method with
  | signal_to_noise =>
      ndiv (nsub mean_pos mean_neg) (nadd std_pos std_neg)
  | t_test =>
      ndiv (nsub mean_pos mean_neg)
           (nsqrt M (nadd (ndiv (npow M std_pos 2) denom)
                          (ndiv (npow M std_neg 2) denom)))
  | ratio_of_classes => ndiv mean_pos mean_neg
  | diff_of_classes => nsub mean_pos mean_neg
  | log2_ratio_of_classes => nlog2 M (ndiv mean_pos mean_neg)
  end.

(** [a.take(ind)] with no axis: the indices address the flattened
    array. *)
Definition take_flat {A : Type} (a : list (list A)) (ind : list (list nat))
  : result (list (list A)) :=
  rmapM (rmapM (fun i => match concat a !! i with
                         | Some x => Ok x
                         | None => Raise IndexError
                         end)) ind.

Definition rank_metric_tensor (exprs : dataframe) (method : string)
    (permutation_num : nat) (pos neg : string) (classes : list string)
    (ascending : bool) (rs : rng G)
  : result (list (list gene) * list (list num) * rng G) :=
  let genes := index exprs in
  let expr_mat := transpose (length (columns exprs)) (values exprs) in
  let perm_genes_mat := replicate (S permutation_num) genes in
  (* the copies but the last are shuffled along the sample axis *)
  let '(shuffled, rs) :=
    shuffle_each G (replicate permutation_num expr_mat) rs in
  let perm_cor_tensor := shuffled ++ [expr_mat] in
  let pos := map (fun c => bool_decide (c = pos)) classes in
  let neg := map (fun c => bool_decide (c = neg)) classes in
  (* a boolean index must be as long as the axis it indexes *)
  _ ← (if decide (length classes = length (columns exprs))
       then Ok () else Raise IndexError);
  let along_samples (f : list num -> num) (mask : list bool) :=
    map (fun arr =>
           map (fun g => f (map (fun sample => sample !!! g) (select mask arr)))
               (seq 0 (length genes)))
        perm_cor_tensor in
  let pos_cor_mean := along_samples np_mean pos in
  let neg_cor_mean := along_samples np_mean neg in
  let pos_cor_std := along_samples np_std pos in
  let neg_cor_std := along_samples np_std neg in
  cor_mat ←
    match method_of method with
    | Some m =>
        (* pos_cor_std.shape[1] *)
        let denom := of_nat (length genes) in
        Ok (zip_with
              (fun '(pm, nm) '(ps, ns) =>
                 zip_with (fun '(a, b) '(c, d) => class_metric m denom a b c d)
                          (zip pm nm) (zip ps ns))
              (zip pos_cor_mean neg_cor_mean) (zip pos_cor_std neg_cor_std))
    | None => Raise SystemExit
    end;
  let cor_mat_ind := map argsort cor_mat in
  genes_mat ← take_flat perm_genes_mat cor_mat_ind;
  cor_mat ← take_flat cor_mat cor_mat_ind;
  if ascending then Ok (genes_mat, cor_mat, rs)
  else Ok (map reverse genes_mat, map reverse cor_mat, rs).

Definition ranking_metric (df : dataframe) (method : string)
    (phenoPos phenoNeg : string) (classes : list string) (ascending : bool)
  : result rank_frame :=
  let A := phenoPos in
  let B := phenoNeg in
  (* groupby(by=classes, axis=1) wants one label per column *)
  _ ← (if decide (length classes = length (columns df))
       then Ok () else Raise KeyError);
  let group (label : string) (row : list num) :=
    select (map (fun c => bool_decide (c = label)) classes) row in
  let df_mean (label : string) :=
    map (fun row => pd_mean (group label row)) (values df) in
  let df_std (label : string) :=
    map (fun row => pd_std (group label row)) (values df) in
  sr ←
    match method_of method with
    | Some m =>
        (* df_mean[A], df_mean[B] *)
        _ ← (if decide (A ∈ classes ∧ B ∈ classes)
             then Ok () else Raise KeyError);
        (* len(df_std) *)
        let denom := of_nat (length (values df)) in
        Ok (zip_with
              (fun '(a, b) '(c, d) => class_metric m denom a b c d)
              (zip (df_mean A) (df_mean B)) (zip (df_std A) (df_std B)))
    | None => Raise SystemExit
    end;
  let sorted := merge_sort (pd_before ascending) (zip (index df) sr) in
  Ok {| gene_name := map fst sorted; rank := map snd sorted |}.
End Metrics.

(** ** The pipelines *)

Section Pipelines.
Variable M : libm.
Variable G : random_source.

(** [np.random.RandomState(seed)]: an integer seed fixes the state; with
    no seed the state is drawn from the entropy of the system,
    [os_entropy]. *)
Definition RandomState (os_entropy : rng G) (seed : option Z) : rng G :=
  match seed with
  | Some s => seed_rng G s
  | None => os_entropy
  end.

Definition gsea_compute (os_entropy : rng G) (data : dataframe)
    (gmt : gmap string (list gene)) (n : nat) (weighted_score_type : Q)
    (permutation_type method phenoPos phenoNeg : string)
    (classes : list string) (ascending : bool) (seed : option Z)
    (processes : nat) (scale prerank : bool)
  : result (list (num * num * num * Q) * list (list nat) * list (list num)
            * list string) :=
  let subsets := sorted_keys gmt in
  let rs := RandomState os_entropy seed in
  '(es, esnull, hit_ind, RES, _) ←
    (if decide (permutation_type = "phenotype") then
       '(genes_mat, cor_mat, rs) ←
         rank_metric_tensor M G data method n phenoPos phenoNeg classes
                            ascending rs;
       enrichment_score_tensor M G (Arr2 genes_mat) (Arr2 cor_mat) gmt
                               weighted_score_type n false false rs
     else
       let keys_sorted := index data in
       cor_vec ←
         (if prerank then get_column data "rank"
          else rank <$> ranking_metric M data method phenoPos phenoNeg
                                       classes ascending);
       enrichment_score_tensor M G (Arr1 keys_sorted) (Arr1 cor_vec) gmt
                               weighted_score_type n false false rs);
  significance ← gsea_significance es esnull;
  Ok (significance, hit_ind, RES, subsets).

Definition gsea_compute_ss (os_entropy : rng G) (data : series)
    (gmt : gmap string (list gene)) (n : nat) (weighted_score_type : Q)
    (scale : bool) (seed : option Z) (processes : nat)
  : result (list (num * num * num * Q) * list (list nat) * list (list num)
            * list string) :=
  let subsets := sorted_keys gmt in
  let rs := RandomState os_entropy seed in
  let keys_sorted := s_index data in
  let cor_vec := s_values data in
  '(es, esnull, hit_ind, RES, _) ←
    enrichment_score_tensor M G (Arr1 keys_sorted) (Arr1 cor_vec) gmt
                            weighted_score_type n false true rs;
  significance ← gsea_significance es esnull;
  Ok (significance, hit_ind, RES, subsets).
End Pipelines.

(** ** Instances for the examples

    A coarse [libm] (the examples stay where the model is exact, so none of
    its values is ever used) and a linear congruential generator standing
    in for the Mersenne Twister. *)

Definition coarse_libm : libm := {|
  frac_pow := fun x w => Qpower x (Qfloor w);
  irr_sqrt := fun x => inject_Z (Z.sqrt (Qfloor x));
  pos_log2 := fun x => inject_Z (Z.log2 (Qfloor x))
|}.

Definition lcg_next (st : Z) : Z := ((1103515245 * st + 12345) mod 2147483648)%Z.

Definition lcg : random_source := {|
  rng := Z;
  seed_rng := fun seed => (seed mod 2147483648)%Z;
  rk_interval := fun mx st =>
    let st' := lcg_next st in
    (Z.to_nat ((st' / 65536) mod (Z.of_nat mx + 1)), st')
|}.

(** ** The specification's wording, for comparison *)


(** The [t_test] statistic as the specification words it: each variance
    over the number of samples of its class. *)
Definition t_test_claimed (M : libm) (mean_pos mean_neg std_pos std_neg : num)
    (n_pos n_neg : nat) : num :=
  ndiv (nsub mean_pos mean_neg)
       (nsqrt M (nadd (ndiv (npow M std_pos 2) (of_nat n_pos))
                      (ndiv (npow M std_neg 2) (of_nat n_neg)))).

(** The number of hits of a membership mask. *)
Definition hits (tag : list bool) : nat :=
  length (filter (fun b => Is_true b) tag).

(** With no hit, every weighted tag is [0] or [NaN]. *)
Definition zero_or_nan (x : num) : Prop := x = Fin 0 \/ x = NaN.

(** ** Data of the examples *)

(** The scenario of the specification: five genes in decreasing order of
    correlation. *)
Definition five_genes : list gene := ["A"; "B"; "C"; "D"; "E"]%string.
Definition five_correl : list num := [Fin 5; Fin 4; Fin 3; Fin 2; Fin 1].

(** A collection of one gene set that misses the five genes. *)
Definition one_miss : gmap string (list gene) :=
  {[ "miss"%string := ["Z"%string] ]}.

(** One gene set with a positive score and no null score that is
    non-negative. *)
Definition all_negative_es : list num := [Fin (1 # 2)].
Definition all_negative_esnull : list (list num) :=
  [[Fin (-1 # 4); Fin (-1 # 2)]].

(** Two gene sets, three permutations. *)
Definition two_sets_es : list num := [Fin (1 # 2); Fin (-1 # 2)].
Definition two_sets_esnull : list (list num) :=
  [[Fin (1 # 4); Fin (-1 # 2); Fin 1]; [Fin (1 # 4); Fin (-1 # 2); Fin (-1)]].

(** Three replicates (two permutations and the observed order) of three
    genes, and a collection of one gene set. *)
Definition three_orders : list (list gene) :=
  [["A"; "B"; "C"]; ["B"; "A"; "C"]; ["C"; "B"; "A"]]%string.
Definition three_correls : list (list num) :=
  [[Fin 3; Fin 2; Fin 1]; [Fin 3; Fin 2; Fin 1]; [Fin 3; Fin 2; Fin 1]].
Definition one_set : gmap string (list gene) :=
  {[ "S"%string := ["A"%string] ]}.

(** Two genes, one sample of each class. *)
Definition two_by_two : dataframe := {|
  index := ["g1"; "g2"]%string;
  columns := ["s1"; "s2"]%string;
  values := [[Fin 1; Fin 5]; [Fin 3; Fin 4]]
|}.

(** One gene, four samples of each class: population deviations 4 and 3,
    means 4 and 3. *)
Definition one_gene_np : dataframe := {|
  index := ["g1"]%string;
  columns := ["p1"; "p2"; "p3"; "p4"; "n1"; "n2"; "n3"; "n4"]%string;
  values := [[Fin 8; Fin 8; Fin 0; Fin 0; Fin 6; Fin 6; Fin 0; Fin 0]]
|}.

(** One gene, four samples of each class: sample deviations 8 and 6,
    means 4 and 3. *)
Definition one_gene_pd : dataframe := {|
  index := ["g1"]%string;
  columns := ["p1"; "p2"; "p3"; "p4"; "n1"; "n2"; "n3"; "n4"]%string;
  values := [[Fin 16; Fin 0; Fin 0; Fin 0; Fin 12; Fin 0; Fin 0; Fin 0]]
|}.

Definition four_and_four : list string :=
  ["P"; "P"; "P"; "P"; "N"; "N"; "N"; "N"]%string.

(** ** Notions used in the statements *)

(** What the shuffles leave of a mask: [nperm] permutations of it, and then
    the mask itself. *)
Definition shuffled_copies (nperm : nat) (tag : list bool)
    (fibres : list (list bool)) : Prop :=
  exists perms,
    fibres = perms ++ [tag]
    /\ length perms = nperm
    /\ Forall (fun p => p ≡ₚ tag) perms.

(** Lines 161 to 166 on one fibre: the running sum, divided by the number
    of genes when [scale] is set. *)
Definition scaled_fibre (M : libm) (weighted_score_type : Q) (scale : bool)
    (len_keys_sorted : nat) (cor : list num) (tag : list bool) : list num :=
  let RES := res_fibre M weighted_score_type cor tag in
  if scale then map (fun x => ndiv x (of_nat len_keys_sorted)) RES else RES.

(** A null score is the score of a permutation of the mask. *)
Definition null_scores (single : bool) (curve : list bool -> list num)
    (nperm : nat) (row : list num) (tag : list bool) : Prop :=
  length row = nperm
  /\ Forall (fun e => exists p, p ≡ₚ tag /\ es_of_fibre single (curve p) = Ok e)
            row.


(** [np.isfinite]. *)
Definition isfinite (x : num) : bool :=
  match x with Fin _ => true | _ => false end.

(** [x] is the finite number [q]. *)
Definition has_value (x : num) (q : Q) : Prop :=
  exists q', x = Fin q' /\ (q' == q)%Q.




(** Lines 521 to 523 on one gene set: the normalized score, from the
    observed score and the null scores of the gene set. *)
Definition nes_entry (e : num) (enrNull : list num) : num :=
  let meanPos :=
    np_mean (filter (fun a => Is_true (ngeb a (Fin 0))) enrNull) in
  let meanNeg :=
    np_mean (filter (fun a => Is_true (nltb a (Fin 0))) enrNull) in
  np_select (ngeb e (Fin 0)) (nltb e (Fin 0))
            (ndiv e meanPos) (ndiv (nneg e) meanNeg).

(** ** The remaining functions of [algorithm.py] *)

Section Helpers.
Variable M : libm.
Variable G : random_source.

(** [shuffle_list]: the shuffle works on a copy. *)
Definition shuffle_list {A : Type} (gene_list : list A) (rs : rng G)
  : list A * rng G :=
  let l2 := gene_list in
  shuffle G l2 rs.

(** [_rnknull]: the two columns of the frame of [ranking_metric]. *)
Definition _rnknull (df : dataframe) (method : string)
    (phenoPos phenoNeg : string) (classes : list string) (ascending : bool)
  : result (list num * list gene) :=
  r2 ← ranking_metric M df method phenoPos phenoNeg classes ascending;
  let ranking2 := rank r2 in
  let gene_list2 := gene_name r2 in
  Ok (ranking2, gene_list2).
End Helpers.

(** A collection of one gene set, the first gene of [two_by_two]. *)
Definition first_gene : gmap string (list gene) :=
  {[ "S"%string := ["g1"%string] ]}.

(** Line 166 on one entry: [x / len(keys_sorted)]. *)
Definition scale_by (N : nat) (x : num) : num := ndiv x (of_nat N).

(** * Properties *)

(** ** Lists *)

Lemma lookup_map {A B : Type} (f : A -> B) (l : list A) (i : nat) :
  map f l !! i = f <$> (l !! i).
Proof.
  revert i; induction l as [|x l IH]; intros [|i]; simpl; auto.
Qed.

Lemma length_map' {A B : Type} (f : A -> B) (l : list A) :
  length (map f l) = length l.
Proof. induction l; simpl; auto. Qed.

(** ** Rationals *)

Lemma Qltb_lt (a b : Q) : Qltb a b = true <-> (a < b)%Q.
Proof.
  unfold Qltb. rewrite negb_true_iff, <- not_true_iff_false, Qle_bool_iff.
  split; [apply Qnot_le_lt | apply Qlt_not_le].
Qed.

Lemma Qltb_ge (a b : Q) : Qltb a b = false <-> (b <= a)%Q.
Proof.
  unfold Qltb. rewrite negb_false_iff, Qle_bool_iff. tauto.
Qed.

Lemma Qis0_true (a : Q) : Qis0 a = true <-> (a == 0)%Q.
Proof. unfold Qis0. apply Qeq_bool_iff. Qed.

Lemma Qis0_false (a : Q) : Qis0 a = false <-> ~ (a == 0)%Q.
Proof.
  unfold Qis0. rewrite <- not_true_iff_false, Qeq_bool_iff. tauto.
Qed.

Lemma Qred_zero (q : Q) : (q == 0)%Q -> Qred q = 0%Q.
Proof. intros H. now rewrite (Qred_complete q 0 H). Qed.

Lemma Qdiv_nonneg (a b : Q) : (0 <= a)%Q -> (0 <= b)%Q -> (0 <= a / b)%Q.
Proof.
  intros Ha Hb. unfold Qdiv. apply Qmult_le_0_compat; auto.
  now apply Qinv_le_0_compat.
Qed.

(** ** The binary search stays inside its interval *)

Lemma binsearch_bounds (less : num -> bool) (arr : list num) (fuel : nat) :
  forall lo hi, lo <= hi ->
    lo <= binsearch less arr fuel lo hi <= hi.
Proof.
  induction fuel as [|fuel IH]; intros lo hi Hle; cbn [binsearch]; [lia|].
  destruct (decide (lo < hi)) as [Hlt|]; [|lia].
  assert (Hmid : (hi - lo) / 2 < hi - lo)
    by (apply Nat.div_lt; lia).
  destruct (arr !! (lo + (hi - lo) / 2)); [|lia].
  destruct (less n).
  - specialize (IH (S (lo + (hi - lo) / 2)) hi). lia.
  - specialize (IH lo (lo + (hi - lo) / 2)). lia.
Qed.

Lemma searchsorted_le (arr : list num) (v : num) (sd : side) :
  searchsorted arr v sd <= length arr.
Proof.
  unfold searchsorted.
  pose proof (binsearch_bounds
                match sd with
                | Left => fun mid_val => np_lt mid_val v
                | Right => fun mid_val => negb (np_lt v mid_val)
                end arr (length arr) 0 (length arr)).
  lia.
Qed.

(** Every count of the FDR loop is a count: none is negative. *)
Lemma counts_of_nonneg (nvals nnes : list num) (nes : num) :
  (0 <= allPos (counts_of nvals nnes nes)
   /\ 0 <= allHigherAndPos (counts_of nvals nnes nes)
   /\ 0 <= nesPos (counts_of nvals nnes nes)
   /\ 0 <= nesHigherAndPos (counts_of nvals nnes nes))%Z.
Proof.
  unfold counts_of.
  pose proof (searchsorted_le nvals (Fin 0) Left).
  pose proof (searchsorted_le nvals nes Left).
  pose proof (searchsorted_le nvals nes Right).
  pose proof (searchsorted_le nnes (Fin 0) Left).
  pose proof (searchsorted_le nnes nes Left).
  pose proof (searchsorted_le nnes nes Right).
  destruct (ngeb nes (Fin 0)); simpl; lia.
Qed.

Lemma py_div_Ok (a b r : Q) :
  py_div a b = Ok r -> ~ (b == 0)%Q /\ (r == a / b)%Q.
Proof.
  unfold py_div. destruct (Qis0 b) eqn:Hb; [discriminate|].
  intros [= <-]. split; [now apply Qis0_false | apply Qred_correct].
Qed.

Lemma float_nonneg (n : Z) : (0 <= n)%Z -> (0 <= float n)%Q.
Proof. intros H. unfold float, Qle. simpl. lia. Qed.

Lemma fdr_of_counts_spec (c : fdr_counts) (pn po : Q) :
  (0 <= allPos c)%Z -> (0 <= allHigherAndPos c)%Z ->
  pi_norm c = Ok pn -> pi_obs c = Ok po ->
  ((0 < po)%Q ->
     (fdr_of_counts c == Qmin (pn / po) 1)%Q
     /\ (0 <= fdr_of_counts c <= 1)%Q)
  /\ ((po == 0)%Q -> fdr_of_counts c = sentinel).
Proof.
  intros HallPos HallHigher Hpn Hpo.
  assert (Hpn0 : (0 <= pn)%Q).
  { apply py_div_Ok in Hpn as [_ ->].
    apply Qdiv_nonneg; now apply float_nonneg. }
  unfold fdr_of_counts. rewrite Hpn, Hpo. simpl.
  unfold py_div. destruct (Qis0 po) eqn:Hz; simpl.
  - apply Qis0_true in Hz. split; [|reflexivity].
    intros Hlt. rewrite Hz in Hlt. now apply Qlt_irrefl in Hlt.
  - apply Qis0_false in Hz. split; [|intros H; now destruct Hz].
    intros Hlt.
    assert (Hr : (0 <= pn / po)%Q)
      by (apply Qdiv_nonneg; [assumption | now apply Qlt_le_weak]).
    pose proof (Qred_correct (pn / po)) as Hred.
    destruct (Qltb (Qred (pn / po)) 1) eqn:Hcmp.
    + apply Qltb_lt in Hcmp. rewrite Hred in Hcmp.
      rewrite Hred. split.
      * symmetry. apply Q.min_l. now apply Qlt_le_weak.
      * split; [assumption | now apply Qlt_le_weak].
    + apply Qltb_ge in Hcmp. rewrite Hred in Hcmp. split.
      * symmetry. now apply Q.min_r.
      * split; [discriminate | apply Qle_refl].
Qed.

(** ** The FDR q-value (C3) *)



(** ** Order on [num] *)


Lemma nleb_trans (a b c : num) :
  nleb a b = true -> nleb b c = true -> nleb a c = true.
Proof.
  destruct a as [x| | |], b as [y| | |], c as [z| | |]; simpl;
    try discriminate; try reflexivity.
  rewrite !Qle_bool_iff. apply Qle_trans.
Qed.

(** ** Counting *)



(** ** The nominal p-value (C2) *)




(** ** Values that are zero or [NaN]

    With no hit, every weighted tag is [0] or [NaN]; their sum is, too, and
    dividing one by the other gives [NaN]. *)

Lemma nmul_zero_l (c : num) : zero_or_nan (nmul (Fin 0) c).
Proof.
  destruct c as [q| | |]; [left|right..]; reflexivity.
Qed.

Lemma nmul_zero_r (c : num) : zero_or_nan (nmul c (Fin 0)).
Proof.
  destruct c as [q| | |]; [left|right..]; try reflexivity.
  unfold nmul, fin. f_equal. apply Qred_zero. apply Qmult_0_r.
Qed.

Lemma nadd_zero_or_nan (a b : num) :
  zero_or_nan a -> zero_or_nan b -> zero_or_nan (nadd a b).
Proof.
  intros [-> | ->] [-> | ->]; simpl; [left|right..]; reflexivity.
Qed.

Lemma nsum_zero_or_nan (l : list num) :
  Forall zero_or_nan l -> zero_or_nan (nsum l).
Proof.
  unfold nsum. assert (H0 : zero_or_nan (Fin 0)) by (left; reflexivity).
  revert H0. generalize (Fin 0) as acc.
  induction l as [|x l IH]; intros acc Hacc Hl; simpl; [assumption|].
  inversion Hl; subst. apply IH; [|assumption].
  now apply nadd_zero_or_nan.
Qed.

Lemma npow_zero_or_nan (M : libm) (x : num) (w : Q) :
  (0 < w)%Q -> zero_or_nan x -> zero_or_nan (npow M x w).
Proof.
  intros Hw Hx. unfold npow.
  assert (Qis0 w = false) as ->.
  { apply Qis0_false. intros H. rewrite H in Hw. now apply Qlt_irrefl in Hw. }
  destruct Hx as [-> | ->]; [left|right; reflexivity].
  change (Qis0 0) with true. cbv iota.
  now apply Qltb_lt in Hw as ->.
Qed.

Lemma ndiv_zero_or_nan (a b : num) :
  zero_or_nan a -> zero_or_nan b -> ndiv a b = NaN.
Proof. intros [-> | ->] [-> | ->]; reflexivity. Qed.

Lemma nadd_nan_r (a : num) : nadd a NaN = NaN.
Proof. now destruct a. Qed.

Lemma nsub_nan_l (b : num) : nsub NaN b = NaN.
Proof. reflexivity. Qed.

Lemma cumsum_from_nan (acc : num) (l : list num) :
  Forall (fun x => x = NaN) l ->
  cumsum_from acc l = replicate (length l) NaN.
Proof.
  revert acc. induction l as [|x l IH]; intros acc Hl; [reflexivity|].
  inversion Hl; subst. simpl. rewrite nadd_nan_r. f_equal. now apply IH.
Qed.

Lemma foldl_nmax2_nan (n : nat) : foldl nmax2 NaN (replicate n NaN) = NaN.
Proof. induction n; simpl; auto. Qed.

Lemma foldl_nmin2_nan (n : nat) : foldl nmin2 NaN (replicate n NaN) = NaN.
Proof. induction n; simpl; auto. Qed.

Lemma nsum_nan (n : nat) : nsum (replicate (S n) NaN) = NaN.
Proof.
  unfold nsum. simpl. induction n; simpl; auto.
Qed.

(** ** Lists of equal items *)

Lemma map_replicate {A B : Type} (f : A -> B) (n : nat) (x : A) :
  map f (replicate n x) = replicate n (f x).
Proof. induction n; simpl; congruence. Qed.

Lemma map_const_replicate {A B : Type} (l : list A) (y : B) :
  map (fun _ => y) l = replicate (length l) y.
Proof. induction l; simpl; congruence. Qed.

Lemma rmapM_replicate {A B : Type} (f : A -> result B) (n : nat) (x : A)
    (y : B) :
  f x = Ok y -> rmapM f (replicate n x) = Ok (replicate n y).
Proof.
  intros Hf. induction n as [|n IH]; simpl; [reflexivity|].
  rewrite Hf. simpl. rewrite IH. reflexivity.
Qed.

Lemma Forall_eq_replicate {A : Type} (x : A) (l : list A) :
  Forall (fun y => y = x) l -> l = replicate (length l) x.
Proof. induction 1; simpl; congruence. Qed.

Lemma last_replicate {A : Type} (n : nat) (x : A) :
  last (replicate (S n) x) = Some x.
Proof. induction n; simpl in *; auto. Qed.

Lemma but_last_replicate {A : Type} (n : nat) (x : A) :
  but_last (replicate (S n) x) = replicate n x.
Proof.
  unfold but_last. rewrite length_replicate.
  replace (S n - 1) with n by lia.
  rewrite take_replicate. f_equal. lia.
Qed.

(** ** Shuffling equal items changes nothing *)

Lemma swap_replicate {A : Type} (i j n : nat) (x : A) :
  swap i j (replicate n x) = replicate n x.
Proof.
  unfold swap.
  destruct (replicate n x !! i) as [a|] eqn:Hi; [|reflexivity].
  destruct (replicate n x !! j) as [b|] eqn:Hj; [|reflexivity].
  apply lookup_replicate in Hi as [-> Hi].
  apply lookup_replicate in Hj as [-> Hj].
  now rewrite !insert_replicate.
Qed.

Lemma shuffle_from_replicate (G : random_source) {A : Type} (i n : nat)
    (x : A) (st : rng G) :
  fst (shuffle_from G i (replicate n x) st) = replicate n x.
Proof.
  revert st. induction i as [|i IH]; intros st; simpl; [reflexivity|].
  destruct (rk_interval G (S i) st) as [j st'].
  rewrite swap_replicate. apply IH.
Qed.

Lemma shuffle_replicate (G : random_source) {A : Type} (n : nat) (x : A)
    (st : rng G) :
  fst (shuffle G (replicate n x) st) = replicate n x.
Proof. unfold shuffle. apply shuffle_from_replicate. Qed.

Lemma shuffle_each_replicate (G : random_source) {A : Type} (k n : nat)
    (x : A) (st : rng G) :
  fst (shuffle_each G (replicate k (replicate n x)) st)
  = replicate k (replicate n x).
Proof.
  revert st. induction k as [|k IH]; intros st; simpl; [reflexivity|].
  pose proof (shuffle_replicate G n x st) as Hs.
  destruct (shuffle G (replicate n x) st) as [r st1]. simpl in Hs. subst r.
  specialize (IH st1).
  destruct (shuffle_each G (replicate k (replicate n x)) st1) as [rs' st2].
  simpl in *. now subst rs'.
Qed.

Lemma shuffle_tags_replicate (G : random_source) (nperm g n : nat)
    (st : rng G) :
  fst (shuffle_tags G nperm (replicate g (replicate n false)) st)
  = replicate g (replicate (S nperm) (replicate n false)).
Proof.
  revert st. induction g as [|g IH]; intros st; simpl; [reflexivity|].
  pose proof (shuffle_each_replicate G nperm n false st) as Hs.
  destruct (shuffle_each G (replicate nperm (replicate n false)) st)
    as [perms st1].
  simpl in Hs. subst perms. specialize (IH st1).
  destruct (shuffle_tags G nperm (replicate g (replicate n false)) st1)
    as [rest st2].
  simpl in *. subst rest. now rewrite <- replicate_cons_app.
Qed.

(** ** A gene set that misses the gene list *)

Lemma in1d_disjoint (gene_list gene_set : list gene) :
  (forall g, g ∈ gene_list -> g ∉ gene_set) ->
  in1d gene_list gene_set = replicate (length gene_list) false.
Proof.
  unfold in1d. induction gene_list as [|g l IH]; intros H; [reflexivity|].
  simpl. rewrite bool_decide_eq_false_2 by (apply H; left).
  f_equal. apply IH. intros g' Hg'. apply H. now right.
Qed.

Lemma flatnonzero_from_no_hit (i n : nat) :
  flatnonzero_from i (replicate n false) = [].
Proof. revert i. induction n; intros i; simpl; auto. Qed.

Lemma zip_with_nmul_no_hit_l (n : nat) (cor : list num) :
  Forall zero_or_nan (zip_with nmul (replicate n (Fin 0)) cor).
Proof.
  revert cor. induction n as [|n IH]; intros [|c cor]; simpl;
    constructor; [apply nmul_zero_l | apply IH].
Qed.

Lemma zip_with_nmul_no_hit_r (n : nat) (cor : list num) :
  Forall zero_or_nan (zip_with nmul cor (replicate n (Fin 0))).
Proof.
  revert cor. induction n as [|n IH]; intros [|c cor]; simpl;
    constructor; [apply nmul_zero_r | apply IH].
Qed.

Lemma Forall_map {A B : Type} (P : A -> Prop) (Q : B -> Prop) (f : A -> B)
    (l : list A) :
  (forall x, P x -> Q (f x)) -> Forall P l -> Forall Q (map f l).
Proof. intros H. induction 1; simpl; constructor; auto. Qed.

Lemma zip_with_nsub_nan (a b : list num) :
  Forall (fun x => x = NaN) a ->
  Forall (fun x => x = NaN) (zip_with nsub a b).
Proof.
  intros Ha. revert b. induction Ha as [|x a -> _ IH]; intros [|y b]; simpl;
    constructor; auto.
Qed.

Lemma cumsum_nan (l : list num) :
  Forall (fun x => x = NaN) l -> cumsum l = replicate (length l) NaN.
Proof. apply cumsum_from_nan. Qed.

(** The running sum of the scalar engine on a row without a hit. *)
Lemma es_of_row_no_hit (n : nat) (correl_vector : list num) :
  length correl_vector = S n ->
  es_of_row (S n) (replicate (S n) false) correl_vector
  = Ok (NaN, replicate (S n) NaN).
Proof.
  intros Hlen. unfold es_of_row.
  rewrite !map_replicate. cbn [of_bool].
  pose proof (nsum_zero_or_nan _ (zip_with_nmul_no_hit_r (S n) correl_vector))
    as Hsum.
  set (norm_tag :=
         ndiv (Fin 1) (nsum (zip_with nmul correl_vector
                                      (replicate (S n) (Fin 0))))) in *.
  assert (Hnorm : forall x, zero_or_nan x -> nmul x norm_tag = NaN).
  { intros x Hx. unfold norm_tag.
    destruct Hsum as [-> | ->], Hx as [-> | ->]; reflexivity. }
  match goal with
  | |- context [cumsum ?l] =>
      assert (Hall : Forall (fun x => x = NaN) l);
      [|assert (Hl : length l = S n)]
  end.
  { apply zip_with_nsub_nan.
    apply Forall_map with (P := zero_or_nan); [exact Hnorm|].
    apply zip_with_nmul_no_hit_l. }
  { rewrite length_zip_with, !length_map', length_zip_with,
      !length_replicate. lia. }
  rewrite (cumsum_nan _ Hall), Hl. simpl.
  rewrite foldl_nmax2_nan, foldl_nmin2_nan. reflexivity.
Qed.

(** The running sum of the tensor engine on a fibre without a hit. *)
Lemma res_fibre_no_hit (M : libm) (w : Q) (cor : list num) (n : nat) :
  (0 < w)%Q -> length cor = n ->
  res_fibre M w cor (replicate n false) = replicate n NaN.
Proof.
  intros Hw Hlen. unfold res_fibre.
  rewrite !map_replicate. cbn [of_bool].
  assert (Hra : Forall zero_or_nan
                  (map (fun x => npow M x w)
                       (zip_with nmul (replicate n (Fin 0)) cor))).
  { apply Forall_map with (P := zero_or_nan);
      [intros x; now apply npow_zero_or_nan|].
    apply zip_with_nmul_no_hit_l. }
  pose proof (nsum_zero_or_nan _ Hra) as Hsum.
  match goal with
  | |- cumsum ?l = _ =>
      assert (Hall : Forall (fun x => x = NaN) l);
      [|assert (Hl : length l = n)]
  end.
  { apply zip_with_nsub_nan.
    eapply Forall_map; [|exact Hra].
    intros x Hx. now apply ndiv_zero_or_nan. }
  { rewrite length_zip_with, !length_map', length_zip_with,
      !length_replicate. lia. }
  now rewrite (cumsum_nan _ Hall), Hl.
Qed.

Lemma es_of_fibre_nan (single : bool) (n : nat) :
  es_of_fibre single (replicate (S n) NaN) = Ok NaN.
Proof.
  unfold es_of_fibre. destruct single.
  - now rewrite nsum_nan.
  - simpl. now rewrite foldl_nmax2_nan, foldl_nmin2_nan.
Qed.

(** ** The keys of a gene-set collection *)

Lemma sorted_keys_lookup (gmt : gmap string (list gene)) (key : string) :
  key ∈ sorted_keys gmt -> exists gs, gmt !! key = Some gs.
Proof.
  unfold sorted_keys. rewrite merge_sort_Permutation.
  change (map fst (map_to_list gmt)) with (fst <$> map_to_list gmt).
  intros ([k gs] & -> & Hin)%list_elem_of_fmap.
  exists gs. now apply elem_of_map_to_list.
Qed.

Lemma length_sorted_keys (gmt : gmap string (list gene)) :
  length (sorted_keys gmt) = size gmt.
Proof.
  unfold sorted_keys. rewrite merge_sort_Permutation, length_map'.
  apply length_map_to_list.
Qed.

Lemma sorted_keys_nonempty (gmt : gmap string (list gene)) :
  gmt <> ∅ -> sorted_keys gmt <> [].
Proof.
  intros Hne Hnil. apply Hne. apply map_size_empty_iff.
  now rewrite <- length_sorted_keys, Hnil.
Qed.

Lemma result_bind_Ok {A B : Type} (a : A) (k : A -> result B) :
  (Ok a ≫= k) = k a.
Proof. reflexivity. Qed.

Lemma bool_if_same {A : Type} (b : bool) (x : A) :
  (if b then x else x) = x.
Proof. now destruct b. Qed.

Lemma rmapM_const {A B : Type} (f : A -> result B) (l : list A) (y : B) :
  (forall x, x ∈ l -> f x = Ok y) ->
  rmapM f l = Ok (replicate (length l) y).
Proof.
  induction l as [|x l IH]; intros H; simpl; [reflexivity|].
  rewrite (H x) by left. simpl. rewrite IH; [reflexivity|].
  intros x' Hx'. apply H. now right.
Qed.

(** ** No overlap between the gene set and the gene list (C1) *)

(** C1, as stated, fails: for a gene set that misses the gene list the
    enrichment score is not 0: there is no guard, [0/0] is computed and
    the score is [NaN]. *)
Lemma enrichment_score_no_hit_not_zero :
  enrichment_score coarse_libm lcg five_genes ["Z"%string] 1 five_correl
                   None 0%Z
  = Ok (Observed NaN [] [NaN; NaN; NaN; NaN; NaN], 0%Z)
  /\ forall RES rs,
       enrichment_score coarse_libm lcg five_genes ["Z"%string] 1
                        five_correl None 0%Z
       <> Ok (Observed (Fin 0) [] RES, rs).
Proof.
  assert (H : enrichment_score coarse_libm lcg five_genes ["Z"%string] 1
                               five_correl None 0%Z
              = Ok (Observed NaN [] [NaN; NaN; NaN; NaN; NaN], 0%Z))
    by (vm_compute; reflexivity).
  split; [exact H|]. intros RES rs. rewrite H. discriminate.
Qed.

(** C1, amended: for a non-empty gene list and gene sets that miss it, no
    exception is raised and the hit-index lists are empty, but the
    division by the zero normalizer is propagated: the enrichment score and
    every entry of the running sum are [NaN].  This holds for the scalar
    engine, and for the tensor engine on a one-dimensional gene list with
    a positive [weighted_score_type] and at least one permutation. *)
Theorem enrichment_score_no_hit :
  forall (M : libm) (G : random_source) (gene_list : list gene)
         (correl_vector : list num),
    gene_list <> [] ->
    length correl_vector = length gene_list ->
    (forall (gene_set : list gene) (weighted_score_type : Q) (rs : rng G),
        (forall g, g ∈ gene_list -> g ∉ gene_set) ->
        enrichment_score M G gene_list gene_set weighted_score_type
                         correl_vector None rs
        = Ok (Observed NaN [] (replicate (length gene_list) NaN), rs))
    /\ (forall (gene_sets : gmap string (list gene))
               (weighted_score_type : Q) (nperm : nat) (scale single : bool)
               (rs : rng G),
           gene_sets <> ∅ ->
           (forall key gene_set g,
               gene_sets !! key = Some gene_set ->
               g ∈ gene_list -> g ∉ gene_set) ->
           (0 < weighted_score_type)%Q ->
           nperm <> 0 ->
           exists rs' : rng G,
             enrichment_score_tensor M G (Arr1 gene_list) (Arr1 correl_vector)
                                     gene_sets weighted_score_type nperm
                                     scale single rs
             = Ok (replicate (size gene_sets) NaN,
                   replicate (size gene_sets) (replicate nperm NaN),
                   replicate (size gene_sets) [],
                   replicate (size gene_sets)
                             (replicate (length gene_list) NaN),
                   rs')).
Proof.
  intros M G gene_list correl_vector Hne Hlen.
  destruct gene_list as [|g0 gl]; [congruence|]. clear Hne.
  set (gene_list := g0 :: gl) in *.
  assert (HN : length gene_list = S (length gl)) by reflexivity.
  split.
  - intros gene_set w rs Hdisj. unfold enrichment_score. cbv zeta.
    rewrite (in1d_disjoint _ _ Hdisj), HN.
    unfold flatnonzero. rewrite flatnonzero_from_no_hit.
    destruct (Qis0 w).
    + rewrite result_bind_Ok, es_of_row_no_hit
        by now rewrite length_replicate.
      reflexivity.
    + unfold broadcast_to.
      rewrite decide_True by (now rewrite length_map', Hlen).
      rewrite result_bind_Ok, es_of_row_no_hit
        by now rewrite length_map', Hlen.
      reflexivity.
  - intros gene_sets w nperm scale single rs Hgs Hdisj Hw Hperm.
    unfold enrichment_score_tensor.
    assert (Qis0 w = false) as ->.
    { apply Qis0_false. intros H. rewrite H in Hw.
      now apply Qlt_irrefl in Hw. }
    apply Qltb_lt in Hw as Hwb. rewrite Hwb. cbv zeta.
    rewrite result_bind_Ok.
    rewrite (decide_False (P := sorted_keys gene_sets = []))
      by now apply sorted_keys_nonempty.
    rewrite result_bind_Ok.
    assert (Htags :
              rmapM (fun key => getitem gene_sets key
                                ≫= fun gs => Ok (in1d gene_list gs))
                    (sorted_keys gene_sets)
              = Ok (replicate (size gene_sets)
                              (replicate (length gene_list) false))).
    { rewrite <- length_sorted_keys. apply rmapM_const.
      intros key Hkey. apply sorted_keys_lookup in Hkey as [gs Hgs'].
      unfold getitem. rewrite Hgs', result_bind_Ok. f_equal.
      apply in1d_disjoint. intros g Hg. now apply (Hdisj key gs g). }
    rewrite Htags, result_bind_Ok.
    rewrite (decide_False (P := nperm = 0)) by assumption.
    rewrite result_bind_Ok.
    pose proof (shuffle_tags_replicate G nperm (size gene_sets)
                  (length gene_list) rs) as Hsh.
    destruct (shuffle_tags G nperm
                (replicate (size gene_sets)
                           (replicate (length gene_list) false)) rs)
      as [T rs'].
    cbn [fst] in Hsh. subst T. exists rs'.
    unfold broadcast_to.
    rewrite decide_True by (now rewrite length_map', Hlen).
    rewrite !result_bind_Ok. cbv beta iota.
    rewrite map_const_replicate, length_replicate, zip_with_replicate.
    rewrite !map_replicate.
    rewrite res_fibre_no_hit by (try assumption; now rewrite length_map').
    rewrite !map_replicate. cbn [ndiv]. rewrite !bool_if_same, HN.
    rewrite (rmapM_replicate (rmapM (es_of_fibre single)) _ _
               (replicate (S nperm) NaN))
      by (apply rmapM_replicate; apply es_of_fibre_nan).
    rewrite result_bind_Ok.
    rewrite (rmapM_replicate last_item _ _ NaN)
      by (unfold last_item; now rewrite last_replicate).
    rewrite result_bind_Ok.
    rewrite (rmapM_replicate last_item _ _ (replicate (S (length gl)) NaN))
      by (unfold last_item; now rewrite last_replicate).
    rewrite result_bind_Ok.
    rewrite !map_replicate, but_last_replicate.
    unfold flatnonzero. rewrite flatnonzero_from_no_hit. reflexivity.
Qed.

Lemma enrichment_score_no_hit_witness :
  enrichment_score coarse_libm lcg five_genes ["Z"%string] 1 five_correl
                   None 0%Z
  = Ok (Observed NaN [] (replicate (length five_genes) NaN), 0%Z)
  /\ exists rs' : rng lcg,
       enrichment_score_tensor coarse_libm lcg (Arr1 five_genes)
                               (Arr1 five_correl)
                               one_miss 1 2 false false 0%Z
       = Ok (replicate (size one_miss) NaN,
             replicate (size one_miss) (replicate 2 NaN),
             replicate (size one_miss) [],
             replicate (size one_miss) (replicate (length five_genes) NaN),
             rs').
Proof.
  destruct (enrichment_score_no_hit coarse_libm lcg five_genes five_correl)
    as [Hscalar Htensor]; [discriminate | reflexivity |].
  assert (Hmiss : forall g : gene, g ∈ five_genes -> g ∉ ["Z"%string]).
  { apply Forall_forall. apply (bool_decide_unpack _). vm_compute.
    reflexivity. }
  split.
  - apply Hscalar. exact Hmiss.
  - apply (Htensor one_miss 1%Q 2 false false 0%Z).
    + apply map_non_empty_singleton.
    + unfold one_miss.
      intros key gene_set g [_ <-]%lookup_singleton_Some. apply Hmiss.
    + reflexivity.
    + discriminate.
Defined.

(** ** Normalized scores (C4) *)

(** C4: the fallback [NES = 0.0] is never taken.  The mean of no null
    score is [NaN], numpy's division does not raise, and the [except]
    branches of [gsea_significance] and of [normalize] are dead: a positive
    score whose null scores are all negative gets [NES = NaN]. *)
Theorem normalized_score_no_fallback :
  gsea_significance all_negative_es all_negative_esnull
  = Ok [(Fin (1 # 2), NaN, NaN, sentinel)]
  /\ normalize (Fin (1 # 2)) [Fin (-1 # 4); Fin (-1 # 2)] = NaN.
Proof. split; vm_compute; reflexivity. Qed.

(** ** The two-dimensional mode of the tensor engine (C5) *)

(** C5: on three replicates and one gene set, the engine returns three
    scores (one per replicate, not one per gene set), a null matrix of
    three rows and no column (not 1 x 2), and the hit lists and running
    sums of every replicate: [np.dstack] puts the replicates on axis 0 and
    the gene sets on axis 2. *)
Theorem enrichment_score_tensor_2d_axes :
  enrichment_score_tensor coarse_libm lcg (Arr2 three_orders)
                          (Arr2 three_correls) one_set 1 2 false false 0%Z
  = Ok ([Fin 1; Fin (-1 # 2); Fin (-1)],
        [[]; []; []],
        [[0]; [1]; [2]],
        [[Fin 1; Fin (1 # 2); Fin 0];
         [Fin (-1 # 2); Fin (1 # 2); Fin 0];
         [Fin (-1 # 2); Fin (-1); Fin 0]],
        0%Z).
Proof. vm_compute. reflexivity. Qed.

(** The engine of the test script, on the same input, returns what the
    batched mode is described to return: one score for the one gene set,
    a null matrix of shape 1 x 2, and the hit list and running sum of the
    observed replicate. *)
Example test_script_tensor_2d :
  TestSsgsea.enrichment_score_tensor coarse_libm lcg (Arr2 three_orders)
                                     (Arr2 three_correls) one_set 1 2
                                     false false 0%Z
  = Ok ([Fin (-1)],
        [[Fin 1; Fin (-1 # 2)]],
        [[2]],
        [[Fin (-1 # 2); Fin (-1); Fin 0]],
        0%Z).
Proof. vm_compute. reflexivity. Qed.

(** The same through the pipeline: with one gene set and one permutation,
    [gsea_compute] in phenotype mode returns two records, one per
    replicate, under the one gene-set name. *)
Example gsea_compute_phenotype_records :
  gsea_compute coarse_libm lcg 0%Z two_by_two
               {[ "S"%string := ["g1"%string] ]} 1 1 "phenotype"
               "diff_of_classes" "P" "N" ["P"; "N"]%string false (Some 0%Z)
               1 false false
  = Ok ([(Fin 1, NaN, NaN, sentinel); (Fin (-1), NaN, NaN, sentinel)],
        [[0]; [1]],
        [[Fin 1; Fin 0]; [Fin (-1); Fin 0]],
        ["S"%string]).
Proof. vm_compute. reflexivity. Qed.

(** ** Sorting the rows of the tensor metric (C6) *)

(** C6: with one permutation that swaps the two samples, the metric of
    the permuted replicate is [[4, 1]] and that of the observed one
    [[-4, -1]].  The rows returned are [[4, 1]] and [[1, 4]]: the second
    holds the values of the first replicate, in increasing order, beside
    the gene order [[g2, g1]] of the observed one. *)
Theorem rank_metric_tensor_take_flat :
  rank_metric_tensor coarse_libm lcg two_by_two "diff_of_classes" 1 "P" "N"
                     ["P"; "N"]%string false (seed_rng lcg 0)
  = Ok ([["g1"; "g2"]; ["g2"; "g1"]]%string,
        [[Fin 4; Fin 1]; [Fin 1; Fin 4]],
        12345%Z)
  /\ rank <$> ranking_metric coarse_libm two_by_two "diff_of_classes" "P" "N"
                             ["P"; "N"]%string false
     = Ok [Fin (-1); Fin (-4)].
Proof. split; vm_compute; reflexivity. Qed.

(** ** The [t_test] statistic (C7) *)

(** C7: on one gene and four samples per class, both ranking functions
    divide the variances by 1, the number of genes, where the formula has
    the class sizes: they return 1/5 and 1/10 where the formula gives 2/5
    and 1/5. *)
Theorem t_test_divides_by_gene_count :
  (rank_metric_tensor coarse_libm lcg one_gene_np "t_test" 0 "P" "N"
                      four_and_four false 0%Z
   = Ok ([["g1"%string]], [[Fin (1 # 5)]], 0%Z)
   /\ t_test_claimed coarse_libm (Fin 4) (Fin 3) (Fin 4) (Fin 3) 4 4
      = Fin (2 # 5))
  /\ (rank <$> ranking_metric coarse_libm one_gene_pd "t_test" "P" "N"
                              four_and_four false
      = Ok [Fin (1 # 10)]
      /\ t_test_claimed coarse_libm (Fin 4) (Fin 3) (Fin 8) (Fin 6) 4 4
         = Fin (1 # 5)).
Proof. repeat split; vm_compute; reflexivity. Qed.

(** ** The classic mode of the tensor engine (C8) *)

(** C8: with [weighted_score_type = 0] the tensor engine is meant to set
    every weight to 1; it reads the local [N] at line 115, before its
    assignment at line 128, so that on every input the call ends in
    [UnboundLocalError] and no running sum is computed. *)
Theorem enrichment_score_tensor_classic_raises :
  forall (M : libm) (G : random_source) (gene_mat : ndarray gene)
         (cor_mat : ndarray num) (gene_sets : gmap string (list gene))
         (nperm : nat) (scale single : bool) (rs : rng G),
    enrichment_score_tensor M G gene_mat cor_mat gene_sets 0 nperm scale
                            single rs
    = Raise UnboundLocalError.
Proof. intros. reflexivity. Qed.

(** In the engine of the test script the weights are
    [np.ones(cor_mat.shape)] and classic mode no longer raises; there
    [(tag * 1) ** 0] is 1 at the misses too ([0 ** 0 = 1]), so every
    position adds [1/N] and the misses subtract [1/Nmiss]. *)
Example test_script_tensor_classic :
  exists rs' : rng lcg,
    TestSsgsea.enrichment_score_tensor coarse_libm lcg (Arr1 five_genes)
                                       (Arr1 five_correl)
                                       {[ "S"%string := ["A"; "C"]%string ]}
                                       0 2 false false 0%Z
    = Ok ([Fin (4 # 15)],
          [[Fin (-1 # 5); Fin (2 # 5)]],
          [[0; 2]],
          [[Fin (1 # 5); Fin (1 # 15); Fin (4 # 15); Fin (2 # 15); Fin 0]],
          rs').
Proof. eexists. vm_compute. reflexivity. Qed.

(** ** Determinism and the scale flag (C9, C10) *)


(** C10: the result of [gsea_compute] and of [gsea_compute_ss] does not
    depend on their [scale] argument: every call of the tensor engine is
    made with [scale=False]. *)
Theorem gsea_compute_ignores_scale :
  forall (M : libm) (G : random_source) (os_entropy : rng G)
         (gmt : gmap string (list gene)) (n : nat) (weighted_score_type : Q)
         (seed : option Z) (processes : nat) (scale1 scale2 : bool),
    (forall data permutation_type method phenoPos phenoNeg classes
            ascending prerank,
        gsea_compute M G os_entropy data gmt n weighted_score_type
                     permutation_type method phenoPos phenoNeg classes
                     ascending seed processes scale1 prerank
        = gsea_compute M G os_entropy data gmt n weighted_score_type
                       permutation_type method phenoPos phenoNeg classes
                       ascending seed processes scale2 prerank)
    /\ (forall data,
           gsea_compute_ss M G os_entropy data gmt n weighted_score_type
                           scale1 seed processes
           = gsea_compute_ss M G os_entropy data gmt n weighted_score_type
                             scale2 seed processes).
Proof. split; intros; reflexivity. Qed.

(** ** Further properties of the engines *)

(** The scenario of the specification: genes A to E with correlations 5 to
    1, the gene set {A, C} and [weighted_score_type = 1].  The hits are at
    positions 0 and 2, the running sum is 5/8, 7/24, 2/3, 1/3, 0 and the
    score is its extremum, 2/3. *)
Theorem enrichment_score_scenario :
  enrichment_score coarse_libm lcg five_genes ["A"; "C"]%string 1 five_correl
                   None 0%Z
  = Ok (Observed (Fin (2 # 3)) [0; 2]
                 [Fin (5 # 8); Fin (7 # 24); Fin (2 # 3); Fin (1 # 3); Fin 0],
        0%Z).
Proof. vm_compute. reflexivity. Qed.

(** The tensor engine does read its [scale] flag: the pipelines are
    independent of theirs only because they pass [False]. *)
Example enrichment_score_tensor_scale_matters :
  enrichment_score_tensor coarse_libm lcg (Arr1 five_genes) (Arr1 five_correl)
                          {[ "S"%string := ["A"; "C"]%string ]} 1 2
                          true true 0%Z
  <> enrichment_score_tensor coarse_libm lcg (Arr1 five_genes)
                             (Arr1 five_correl)
                             {[ "S"%string := ["A"; "C"]%string ]} 1 2
                             false true 0%Z.
Proof. vm_compute. discriminate. Qed.

(** Without a seed the result does depend on the entropy of the system. *)
Example gsea_compute_ss_unseeded :
  gsea_compute_ss coarse_libm lcg 0%Z
                  {| s_index := five_genes; s_values := five_correl |}
                  {[ "S"%string := ["A"; "C"]%string ]} 2 1 false None 1
  <> gsea_compute_ss coarse_libm lcg 1%Z
                     {| s_index := five_genes; s_values := five_correl |}
                     {[ "S"%string := ["A"; "C"]%string ]} 2 1 false None 1.
Proof. vm_compute. discriminate. Qed.

(** X3: the results are listed in the order of the sorted gene-set names,
    and every gene set is listed once. *)
Theorem sorted_keys_sorted (gmt : gmap string (list gene)) :
  Sorted String.le (sorted_keys gmt)
  /\ NoDup (sorted_keys gmt)
  /\ forall key, key ∈ sorted_keys gmt <-> is_Some (gmt !! key).
Proof.
  unfold sorted_keys. split; [apply Sorted_merge_sort; apply _|].
  change (map fst (map_to_list gmt)) with (fst <$> map_to_list gmt).
  split.
  - rewrite merge_sort_Permutation. apply NoDup_fst_map_to_list.
  - intros key. rewrite merge_sort_Permutation. split.
    + intros ([k gs] & -> & Hin)%list_elem_of_fmap.
      exists gs. now apply elem_of_map_to_list.
    + intros [gs Hgs]. apply list_elem_of_fmap. exists (key, gs).
      split; [reflexivity | now apply elem_of_map_to_list].
Qed.

Lemma insert_head_Permutation {A : Type} (t : list A) (j : nat) (b h : A) :
  t !! j = Some b -> b :: <[j := h]> t ≡ₚ h :: t.
Proof.
  revert j. induction t as [|c t IH]; intros [|j] Hj; simplify_eq/=.
  - apply perm_swap.
  - rewrite perm_swap. rewrite (IH j Hj). apply perm_swap.
Qed.

Lemma swap_Permutation {A : Type} (i j : nat) (x : list A) :
  swap i j x ≡ₚ x.
Proof.
  unfold swap.
  destruct (x !! i) as [a|] eqn:Hi; [|reflexivity].
  destruct (x !! j) as [b|] eqn:Hj; [|reflexivity].
  revert i j Hi Hj.
  induction x as [|h t IH]; intros [|i] [|j] Hi Hj; simplify_eq/=.
  - reflexivity.
  - now apply insert_head_Permutation.
  - now apply insert_head_Permutation.
  - now rewrite IH.
Qed.

Lemma shuffle_from_Permutation (G : random_source) {A : Type} (i : nat)
    (x : list A) (st : rng G) :
  fst (shuffle_from G i x st) ≡ₚ x.
Proof.
  revert x st. induction i as [|i IH]; intros x st; simpl; [reflexivity|].
  destruct (rk_interval G (S i) st) as [j st'].
  rewrite IH. apply swap_Permutation.
Qed.

(** A shuffle permutes: nothing is lost and nothing is added. *)
Theorem shuffle_Permutation (G : random_source) {A : Type} (x : list A)
    (st : rng G) :
  fst (shuffle G x st) ≡ₚ x.
Proof. apply shuffle_from_Permutation. Qed.

Lemma fdr_of_counts_range (c : fdr_counts) :
  (0 <= allPos c)%Z -> (0 <= allHigherAndPos c)%Z ->
  (0 <= nesPos c)%Z -> (0 <= nesHigherAndPos c)%Z ->
  (0 <= fdr_of_counts c <= 1)%Q \/ fdr_of_counts c = sentinel.
Proof.
  intros H1 H2 H3 H4.
  destruct (pi_norm c) as [pn|] eqn:Hpn;
    [|right; unfold fdr_of_counts; now rewrite Hpn].
  destruct (pi_obs c) as [po|] eqn:Hpo;
    [|right; unfold fdr_of_counts; now rewrite Hpn, Hpo].
  destruct (fdr_of_counts_spec c pn po H1 H2 Hpn Hpo) as [Hpos Hzero].
  assert (Hpo0 : (0 <= po)%Q).
  { apply py_div_Ok in Hpo as [_ ->].
    apply Qdiv_nonneg; now apply float_nonneg. }
  apply Qle_lteq in Hpo0 as [Hlt | Heq].
  - left. now apply Hpos.
  - right. apply Hzero. now symmetry.
Qed.

(** X5: every q-value that [gsea_significance] returns is a number: one of
    [[0, 1]], or the sentinel. *)
Theorem gsea_significance_fdr_range :
  forall (es : list num) (esnull : list (list num))
         (out : list (num * num * num * Q)) (e nes p : num) (q : Q),
    gsea_significance es esnull = Ok out ->
    (e, nes, p, q) ∈ out ->
    (0 <= q <= 1)%Q \/ q = sentinel.
Proof.
  intros es esnull out e nes p q Hsig Hin.
  unfold gsea_significance in Hsig. revert Hsig.
  generalize (normalized_scores es esnull). intros [nES nNulls] Hsig.
  destruct (gsea_pval es esnull) as [pvals|]; [|discriminate].
  simpl in Hsig. injection Hsig as <-.
  apply list_elem_of_lookup in Hin as [i Hi].
  apply lookup_zip_with_Some in Hi as (x & q' & Heq & _ & Hq).
  simplify_eq.
  rewrite lookup_map in Hq.
  destruct (nES !! i) as [nes'|]; [|discriminate]. simplify_eq/=.
  apply fdr_of_counts_range; apply counts_of_nonneg.
Qed.

Lemma gsea_significance_fdr_range_witness :
  (0 <= 2 # 3 <= 1)%Q \/ (2 # 3) = sentinel.
Proof.
  apply (gsea_significance_fdr_range two_sets_es two_sets_esnull
           [(Fin (1 # 2), Fin (4 # 5), Fin (1 # 2), 2 # 3);
            (Fin (-1 # 2), Fin (-2 # 3), Fin (1 # 2), 1%Q)]
           (Fin (1 # 2)) (Fin (4 # 5)) (Fin (1 # 2)) (2 # 3));
    [vm_compute; reflexivity | left].
Defined.

(** ** The classic mode of the scalar engine *)

Lemma fin_eq (x y : Q) : (x == y)%Q -> fin x = fin y.
Proof. intros H. unfold fin. f_equal. now apply Qred_complete. Qed.

Lemma foldl_nadd_tags (tag : list bool) (a : Q) :
  foldl nadd (fin a) (map of_bool tag)
  = fin (a + (Z.of_nat (hits tag) # 1)).
Proof.
  revert a. induction tag as [|b tag IH]; intros a; simpl.
  - apply fin_eq. unfold hits. simpl. ring.
  - unfold hits. rewrite filter_cons. destruct b; simpl.
    + change (nadd (fin a) (Fin 1)) with (fin (Qred a + 1)).
      rewrite IH. apply fin_eq. rewrite Qred_correct.
      unfold hits. rewrite Nat2Z.inj_succ. unfold Z.succ.
      rewrite <- (Qinv_plus_distr _ 1 1). ring.
    + change (nadd (fin a) (Fin 0)) with (fin (Qred a + 0)).
      rewrite IH. apply fin_eq. rewrite Qred_correct. unfold hits. ring.
Qed.

Lemma nsum_tags (tag : list bool) :
  nsum (map of_bool tag) = fin (Z.of_nat (hits tag) # 1).
Proof.
  unfold nsum. change (Fin 0) with (fin 0). rewrite foldl_nadd_tags.
  apply fin_eq. ring.
Qed.

Lemma zip_with_nmul_ones_l (tag : list bool) (n : nat) :
  length tag <= n ->
  zip_with nmul (replicate n (Fin 1)) (map of_bool tag) = map of_bool tag.
Proof.
  revert n. induction tag as [|b tag IH]; intros [|n] Hn; simpl in *;
    try reflexivity; try lia.
  rewrite IH by lia. now destruct b.
Qed.

(** One step of the running sum, for a hit and for a miss, once the two
    normalizers are finite. *)
Lemma classic_step (b : bool) (norm_tag norm_no_tag : Q) :
  nsub (nmul (nmul (of_bool b) (Fin 1)) (fin norm_tag))
       (nmul (nsub (Fin 1) (of_bool b)) (fin norm_no_tag))
  = if b then fin norm_tag else fin (- norm_no_tag).
Proof.
  destruct b; unfold nsub, nmul, nadd, nneg, of_bool, fin; f_equal;
    apply Qred_complete; rewrite !Qred_correct; ring.
Qed.

Lemma classic_steps (tag : list bool) (n : nat) (norm_tag norm_no_tag : Q) :
  length tag <= n ->
  zip_with nsub
    (map (fun x => nmul x (fin norm_tag))
         (zip_with nmul (map of_bool tag) (replicate n (Fin 1))))
    (map (fun x => nmul x (fin norm_no_tag))
         (map (nsub (Fin 1)) (map of_bool tag)))
  = map (fun b : bool => if b then fin norm_tag else fin (- norm_no_tag)) tag.
Proof.
  revert n. induction tag as [|b tag IH]; intros [|n] Hn; simpl in *;
    try reflexivity; try lia.
  rewrite IH by lia. f_equal. apply classic_step.
Qed.

Lemma hits_le_length (tag : list bool) : hits tag <= length tag.
Proof. unfold hits. apply length_filter. Qed.

(** X1: for [weighted_score_type = 0] the scalar engine sets every weight
    to 1: when the gene set has hits and misses, each hit adds [1/Nhit] to
    the running sum and each miss [-1/Nmiss]. *)
Theorem enrichment_score_classic :
  forall (M : libm) (G : random_source) (gene_list gene_set : list gene)
         (correl_vector : list num) (rs : rng G),
    let tag := in1d gene_list gene_set in
    let Nhit := hits tag in
    let Nmiss := length gene_list - Nhit in
    Nhit <> 0 -> Nmiss <> 0 ->
    exists es : num,
      enrichment_score M G gene_list gene_set 0 correl_vector None rs
      = Ok (Observed es (flatnonzero tag)
              (cumsum
                 (map (fun b : bool =>
                         if b then fin (1 / (Z.of_nat Nhit # 1))
                         else fin (- (1 / (Z.of_nat Nmiss # 1))))
                      tag)),
            rs).
Proof.
  intros M G gene_list gene_set correl_vector rs tag Nhit Nmiss Hhit Hmiss.
  assert (Hlen : length tag = length gene_list)
    by (unfold tag, in1d; apply length_map').
  pose proof (hits_le_length tag) as Hle. fold Nhit in Hle.
  unfold enrichment_score. cbv zeta. fold tag.
  change (Qis0 0) with true. cbv iota. rewrite result_bind_Ok.
  unfold es_of_row. cbv zeta.
  rewrite zip_with_nmul_ones_l by lia.
  rewrite nsum_tags. fold Nhit.
  assert (Hnorm_tag :
            ndiv (Fin 1) (fin (Z.of_nat Nhit # 1))
            = fin (1 / (Z.of_nat Nhit # 1))).
  { unfold ndiv, fin at 1.
    assert (Qis0 (Qred (Z.of_nat Nhit # 1)) = false) as ->.
    { apply Qis0_false. rewrite Qred_correct. unfold Qeq. simpl. lia. }
    apply fin_eq. now rewrite Qred_correct. }
  assert (Hnorm_no_tag :
            ndiv (Fin 1)
                 (nsub (of_nat (length gene_list)) (fin (Z.of_nat Nhit # 1)))
            = fin (1 / (Z.of_nat Nmiss # 1))).
  { assert (Hq : ((Z.of_nat (length gene_list) # 1)
                  + Qred (- Qred (Z.of_nat Nhit # 1))
                  == Z.of_nat Nmiss # 1)%Q).
    { rewrite !Qred_correct. unfold Nmiss, Qeq. simpl. lia. }
    unfold nsub, nneg, of_nat, nadd, fin at 1 2. unfold ndiv, fin at 1.
    assert (Qis0 (Qred ((Z.of_nat (length gene_list) # 1)
                        + Qred (- Qred (Z.of_nat Nhit # 1)))) = false) as ->.
    { apply Qis0_false. rewrite Qred_correct, Hq. unfold Qeq. simpl. lia. }
    apply fin_eq. now rewrite Qred_correct, Hq. }
  rewrite Hnorm_tag, Hnorm_no_tag.
  rewrite classic_steps by lia.
  destruct tag as [|b tag'] eqn:Htag; [now destruct Hhit|].
  eexists. reflexivity.
Qed.

Lemma enrichment_score_classic_witness :
  exists es : num,
    enrichment_score coarse_libm lcg five_genes ["A"; "C"]%string 0
                     five_correl None 0%Z
    = Ok (Observed es [0; 2]
            [Fin (1 # 2); Fin (1 # 6); Fin (2 # 3); Fin (1 # 3); Fin 0],
          0%Z).
Proof.
  apply (enrichment_score_classic coarse_libm lcg five_genes
           ["A"; "C"]%string five_correl 0%Z); discriminate.
Defined.

(** ** Searching a sorted array *)

Lemma np_le_trans : Transitive np_le.
Proof.
  intros a b c. unfold np_le, np_lt.
  destruct a as [x| | |], b as [y| | |], c as [z| | |]; simpl;
    try discriminate; try reflexivity.
  rewrite !orb_false_r, !Qltb_ge. intros H1 H2. now apply Qle_trans with y.
Qed.

Lemma np_le_total : Total np_le.
Proof.
  intros a b. unfold np_le, np_lt.
  destruct a as [x| | |], b as [y| | |]; simpl; auto.
  rewrite !orb_false_r, !Qltb_ge.
  destruct (Qlt_le_dec x y) as [H|H]; [left; now apply Qlt_le_weak | now right].
Qed.

Lemma np_sort_sorted (l : list num) : StronglySorted np_le (np_sort l).
Proof.
  apply (@StronglySorted_merge_sort _ np_le _ np_le_trans np_le_total).
Qed.

Lemma np_sort_Permutation (l : list num) : np_sort l ≡ₚ l.
Proof. apply merge_sort_Permutation. Qed.

Lemma StronglySorted_mono {A : Type} (R S : A -> A -> Prop) (l : list A) :
  (forall x y, R x y -> S x y) -> StronglySorted R l -> StronglySorted S l.
Proof.
  intros HRS. induction 1 as [|x t _ IH Hx]; constructor; [assumption|].
  eapply Forall_impl; [exact Hx|]. intros y. apply HRS.
Qed.

(** A test that, once false, stays false further right cuts the array in
    two. *)
Lemma sorted_split (less : num -> bool) (arr : list num) :
  StronglySorted (fun x y => less y = true -> less x = true) arr ->
  exists l1 l2,
    arr = l1 ++ l2
    /\ Forall (fun x => less x = true) l1
    /\ Forall (fun x => less x = false) l2.
Proof.
  induction 1 as [|x t _ (l1 & l2 & -> & H1 & H2) Hx].
  - exists [], []. repeat split; constructor.
  - destruct (less x) eqn:Hlx.
    + exists (x :: l1), l2. repeat split; [constructor|]; assumption.
    + exists [], (x :: l1 ++ l2). repeat split; [constructor|].
      constructor; [assumption|].
      eapply Forall_impl; [exact Hx|]. intros y Hy. simpl in Hy.
      destruct (less y); [|reflexivity].
      specialize (Hy eq_refl). congruence.
Qed.

Lemma filter_split_length (less : num -> bool) (l1 l2 : list num) :
  Forall (fun x => less x = true) l1 ->
  Forall (fun x => less x = false) l2 ->
  length (filter (fun x => Is_true (less x)) (l1 ++ l2)) = length l1.
Proof.
  intros H1 H2. rewrite filter_app, length_app.
  assert (filter (fun x => Is_true (less x)) l1 = l1) as ->.
  { induction H1 as [|x l Hx _ IH]; [reflexivity|].
    rewrite filter_cons, decide_True by (rewrite Hx; exact I).
    now rewrite IH. }
  assert (filter (fun x => Is_true (less x)) l2 = []) as ->.
  { induction H2 as [|x l Hx _ IH]; [reflexivity|].
    rewrite filter_cons, decide_False by (rewrite Hx; exact id).
    exact IH. }
  simpl. lia.
Qed.

(** With enough steps, the binary search finds the cut. *)
Lemma binsearch_split (less : num -> bool) (l1 l2 : list num) (fuel : nat) :
  Forall (fun x => less x = true) l1 ->
  Forall (fun x => less x = false) l2 ->
  forall lo hi,
    lo <= length l1 <= hi -> hi <= length (l1 ++ l2) -> hi - lo <= fuel ->
    binsearch less (l1 ++ l2) fuel lo hi = length l1.
Proof.
  intros H1 H2.
  induction fuel as [|fuel IH]; intros lo hi Hk Hhi Hfuel;
    cbn [binsearch]; [lia|].
  destruct (decide (lo < hi)) as [Hlt|]; [|lia].
  assert (Hmid : (hi - lo) / 2 < hi - lo) by (apply Nat.div_lt; lia).
  set (mid := lo + (hi - lo) / 2) in *.
  destruct ((l1 ++ l2) !! mid) as [v|] eqn:Hv.
  2:{ apply lookup_ge_None in Hv. lia. }
  destruct (less v) eqn:Hlv.
  - assert (mid < length l1).
    { destruct (decide (mid < length l1)) as [|Hge]; [assumption|].
      rewrite lookup_app_r in Hv by lia.
      apply list_elem_of_lookup_2 in Hv.
      rewrite Forall_forall in H2. rewrite (H2 v Hv) in Hlv. discriminate. }
    apply IH; lia.
  - assert (length l1 <= mid).
    { destruct (decide (length l1 <= mid)) as [|Hlt']; [assumption|].
      rewrite lookup_app_l in Hv by lia.
      apply list_elem_of_lookup_2 in Hv.
      rewrite Forall_forall in H1. rewrite (H1 v Hv) in Hlv. discriminate. }
    apply IH; lia.
Qed.

(** On a sorted array, [searchsorted] counts: with [side="left"] the
    items below [v], with [side="right"] the items not above [v] (in
    numpy's order, where [NaN] is the largest). *)
Theorem searchsorted_sorted (arr : list num) (v : num) :
  StronglySorted np_le arr ->
  searchsorted arr v Left
  = length (filter (fun x => Is_true (np_lt x v)) arr)
  /\ searchsorted arr v Right
     = length (filter (fun x => Is_true (negb (np_lt v x))) arr).
Proof.
  intros Hsorted. unfold searchsorted. split.
  - destruct (sorted_split (fun x => np_lt x v) arr)
      as (l1 & l2 & -> & H1 & H2).
    { eapply StronglySorted_mono; [|exact Hsorted].
      intros x y Hxy Hy. simpl.
      destruct (np_lt x v) eqn:Hx; [reflexivity|].
      assert (Hvy : np_le v y) by (now apply (np_le_trans v x y)).
      unfold np_le in Hvy. congruence. }
    rewrite (filter_split_length _ l1 l2 H1 H2).
    apply binsearch_split; auto; rewrite ?length_app; lia.
  - destruct (sorted_split (fun x => negb (np_lt v x)) arr)
      as (l1 & l2 & -> & H1 & H2).
    { eapply StronglySorted_mono; [|exact Hsorted].
      intros x y Hxy Hy. simpl in *.
      apply negb_true_iff in Hy. apply negb_true_iff.
      now apply (np_le_trans x y v). }
    rewrite (filter_split_length _ l1 l2 H1 H2).
    apply binsearch_split; auto; rewrite ?length_app; lia.
Qed.

Lemma searchsorted_sorted_witness :
  searchsorted [Fin 1; Fin 2; Fin 2; Fin 3] (Fin 2) Left = 1
  /\ searchsorted [Fin 1; Fin 2; Fin 2; Fin 3] (Fin 2) Right = 3.
Proof.
  apply (searchsorted_sorted [Fin 1; Fin 2; Fin 2; Fin 3] (Fin 2)).
  repeat constructor.
Defined.

Lemma filter_negb_length (less : num -> bool) (l : list num) :
  length (filter (fun x => Is_true (less x)) l)
  + length (filter (fun x => Is_true (negb (less x))) l)
  = length l.
Proof.
  induction l as [|x l IH]; [reflexivity|].
  rewrite !filter_cons. destruct (less x); simpl; lia.
Qed.

(** X6: the counts that [pi_norm] is made of are counts over the pooled
    normalized nulls: for a non-negative score, the nulls not below 0 and
    the nulls not below the score; for a negative score (or [NaN]), the
    nulls below 0 and the nulls not above the score. *)
Theorem counts_of_pooled_nulls (nulls nnes : list num) (nes : num) :
  let c := counts_of (np_sort nulls) nnes nes in
  let count (p : num -> bool) :=
    Z.of_nat (length (filter (fun x => Is_true (p x)) nulls)) in
  if ngeb nes (Fin 0)
  then allPos c = count (fun x => negb (np_lt x (Fin 0)))
       /\ allHigherAndPos c = count (fun x => negb (np_lt x nes))
  else allPos c = count (fun x => np_lt x (Fin 0))
       /\ allHigherAndPos c = count (fun x => negb (np_lt nes x)).
Proof.
  intros c count. subst c count. unfold counts_of.
  pose proof (np_sort_sorted nulls) as Hsorted.
  pose proof (searchsorted_sorted _ (Fin 0) Hsorted) as [H0 _].
  pose proof (searchsorted_sorted _ nes Hsorted) as [Hl Hr].
  assert (Hperm : forall p : num -> bool,
             length (filter (fun x => Is_true (p x)) (np_sort nulls))
             = length (filter (fun x => Is_true (p x)) nulls))
    by (intros p; now rewrite np_sort_Permutation).
  assert (Hlen : length (np_sort nulls) = length nulls)
    by now rewrite np_sort_Permutation.
  pose proof (filter_negb_length (fun x => np_lt x (Fin 0)) nulls).
  pose proof (filter_negb_length (fun x => np_lt x nes) nulls).
  destruct (ngeb nes (Fin 0)); simpl;
    rewrite ?H0, ?Hl, ?Hr, ?Hlen, !Hperm; split; lia.
Qed.

(** ** The one-dimensional mode of the tensor engine *)

Lemma rmapM_app {A B : Type} (f : A -> result B) (l1 l2 : list A)
    (ys1 ys2 : list B) :
  rmapM f l1 = Ok ys1 -> rmapM f l2 = Ok ys2 ->
  rmapM f (l1 ++ l2) = Ok (ys1 ++ ys2).
Proof.
  revert ys1. induction l1 as [|x l1 IH]; intros ys1 H1 H2; simpl in *.
  - now injection H1 as <-.
  - destruct (f x) as [y|]; [|discriminate]. simpl in *.
    destruct (rmapM f l1) as [ys|]; [|discriminate]. simpl in *.
    injection H1 as <-. now rewrite (IH ys eq_refl H2).
Qed.

Lemma rmapM_Forall2 {A B : Type} (f : A -> result B) (l : list A) :
  Forall (fun x => exists y, f x = Ok y) l ->
  exists ys, rmapM f l = Ok ys /\ Forall2 (fun x y => f x = Ok y) l ys.
Proof.
  induction 1 as [|x l [y Hy] _ (ys & Hys & HF)]; simpl.
  - exists []. split; [reflexivity | constructor].
  - exists (y :: ys). rewrite Hy, Hys. split; [reflexivity|].
    now constructor.
Qed.

Lemma rmapM_Ok_map {A B : Type} (f : A -> result B) (g : A -> B)
    (l : list A) :
  (forall x, x ∈ l -> f x = Ok (g x)) -> rmapM f l = Ok (map g l).
Proof.
  induction l as [|x l IH]; intros H; simpl; [reflexivity|].
  rewrite (H x) by left. simpl. rewrite IH; [reflexivity|].
  intros x' Hx'. apply H. now right.
Qed.

Lemma zip_with_const_map {A B C : Type} (f : A -> B -> C) (c : A)
    (l : list B) :
  zip_with f (map (fun _ => c) l) l = map (f c) l.
Proof. induction l; simpl; congruence. Qed.

Lemma last_snoc' {A : Type} (l : list A) (x : A) : last (l ++ [x]) = Some x.
Proof. induction l as [|y [|z l] IH]; simpl in *; auto. Qed.

Lemma but_last_snoc {A : Type} (l : list A) (x : A) :
  but_last (l ++ [x]) = l.
Proof.
  unfold but_last. rewrite length_app. simpl.
  replace (length l + 1 - 1) with (length l) by lia.
  now rewrite take_app_length.
Qed.

Lemma length_cumsum_from (acc : num) (l : list num) :
  length (cumsum_from acc l) = length l.
Proof. revert acc. induction l; intros acc; simpl; auto. Qed.

Lemma length_res_fibre (M : libm) (w : Q) (cor : list num) (tag : list bool) :
  length cor = length tag ->
  length (res_fibre M w cor tag) = length tag.
Proof.
  intros H. unfold res_fibre, cumsum.
  rewrite length_cumsum_from, length_zip_with, !length_map',
    length_zip_with, !length_map'. lia.
Qed.

Lemma es_of_fibre_Ok (single : bool) (RES : list num) :
  RES <> [] -> exists e, es_of_fibre single RES = Ok e.
Proof.
  intros H. unfold es_of_fibre. destruct single; [eauto|].
  destruct RES as [|x l]; [congruence|]. simpl. eauto.
Qed.

(** What the shuffles leave of the masks: each row of [perm_tag_tensor]
    is [nperm] permutations of the mask, and then the mask itself. *)
Lemma shuffle_each_Permutation (G : random_source) {A : Type}
    (rows : list (list A)) (st : rng G) :
  Forall2 (fun r r' => r' ≡ₚ r) rows (fst (shuffle_each G rows st)).
Proof.
  revert st. induction rows as [|r rows IH]; intros st; simpl;
    [constructor|].
  pose proof (shuffle_from_Permutation G (length r - 1) r st) as Hr.
  fold (shuffle G r st) in Hr.
  destruct (shuffle G r st) as [r' st1]. specialize (IH st1).
  destruct (shuffle_each G rows st1) as [rs' st2]. simpl in *.
  now constructor.
Qed.

Lemma shuffle_tags_copies (G : random_source) (nperm : nat)
    (tags : list (list bool)) (st : rng G) :
  Forall2 (shuffled_copies nperm) tags (fst (shuffle_tags G nperm tags st)).
Proof.
  revert st. induction tags as [|tag tags IH]; intros st; simpl;
    [constructor|].
  pose proof (shuffle_each_Permutation G (replicate nperm tag) st) as Hs.
  destruct (shuffle_each G (replicate nperm tag) st) as [perms st1].
  specialize (IH st1).
  destruct (shuffle_tags G nperm tags st1) as [rest st2]. simpl in *.
  constructor; [|assumption].
  exists perms. split; [reflexivity|]. split.
  - apply Forall2_length in Hs. now rewrite length_replicate in Hs.
  - clear IH. revert Hs. generalize nperm as n.
    induction perms as [|p perms IHp]; intros [|n] Hs; simpl in Hs;
      inversion Hs; subst; constructor; eauto.
Qed.

Lemma length_scaled_fibre (M : libm) (w : Q) (scale : bool) (n : nat)
    (cor : list num) (tag : list bool) :
  length cor = length tag ->
  length (scaled_fibre M w scale n cor tag) = length tag.
Proof.
  intros H. unfold scaled_fibre.
  destruct scale; rewrite ?length_map'; now apply length_res_fibre.
Qed.

Lemma last_item_snoc {A : Type} (l : list A) (x : A) :
  last_item (l ++ [x]) = Ok x.
Proof. unfold last_item. now rewrite last_snoc'. Qed.

Lemma tensor_tail (single : bool) (curve : list bool -> list num)
    (nperm : nat) (tags : list (list bool)) (T : list (list (list bool))) :
  Forall2 (shuffled_copies nperm) tags T ->
  (forall tag p, tag ∈ tags -> p ≡ₚ tag -> curve p <> []) ->
  exists esmatrix es,
    rmapM (rmapM (es_of_fibre single)) (map (map curve) T) = Ok esmatrix
    /\ rmapM last_item esmatrix = Ok es
    /\ rmapM last_item (map (map curve) T) = Ok (map curve tags)
    /\ Forall2 (fun e tag => es_of_fibre single (curve tag) = Ok e) es tags
    /\ Forall2 (null_scores single curve nperm) (map but_last esmatrix) tags.
Proof.
  induction 1 as [|tag fibres tags T (perms & -> & Hlen & Hperm) _ IH];
    intros Hne.
  - exists [], []. simpl. repeat split; constructor.
  - destruct IH as (esm & es & H1 & H2 & H3 & H4 & H5).
    { intros t p Ht. apply Hne. now right. }
    destruct (rmapM_Forall2 (es_of_fibre single) (map curve perms))
      as (nulls & Hnulls & HF).
    { apply Forall_map with (P := fun p => p ≡ₚ tag); [|exact Hperm].
      intros p Hp. apply es_of_fibre_Ok. apply (Hne tag p); [left|exact Hp]. }
    destruct (es_of_fibre_Ok single (curve tag)) as [e He].
    { apply (Hne tag tag); [left | reflexivity]. }
    assert (Hrow : rmapM (es_of_fibre single) (map curve (perms ++ [tag]))
                   = Ok (nulls ++ [e])).
    { rewrite map_app. apply rmapM_app; [exact Hnulls|].
      simpl. now rewrite He. }
    exists ((nulls ++ [e]) :: esm), (e :: es).
    cbn [map rmapM]. rewrite Hrow, !result_bind_Ok, H1, !result_bind_Ok.
    split; [reflexivity|].
    rewrite last_item_snoc, result_bind_Ok, H2.
    split; [reflexivity|].
    rewrite map_app. cbn [map].
    rewrite last_item_snoc, result_bind_Ok, H3.
    split; [reflexivity|]. split; [now constructor|].
    rewrite but_last_snoc. constructor; [|exact H5].
    split.
    + apply Forall2_length in HF. rewrite length_map' in HF. lia.
    + clear -HF Hperm. revert nulls HF.
      induction Hperm as [|p perms Hp _ IHp]; intros nulls HF; simpl in HF;
        inversion HF; subst; constructor; eauto.
Qed.

Lemma tensor_1d_run :
  forall (M : libm) (G : random_source) (gene_list : list gene)
         (cor_mat : list num) (gene_sets : gmap string (list gene))
         (weighted_score_type : Q) (nperm : nat) (scale single : bool)
         (rs : rng G),
    gene_list <> [] ->
    length cor_mat = length gene_list ->
    gene_sets <> ∅ ->
    (0 < weighted_score_type)%Q ->
    nperm <> 0 ->
    let tags :=
      map (fun key => in1d gene_list (default [] (gene_sets !! key)))
          (sorted_keys gene_sets) in
    let curve :=
      scaled_fibre M weighted_score_type scale (length gene_list)
                   (map nabs cor_mat) in
    exists es esnull rs',
      enrichment_score_tensor M G (Arr1 gene_list) (Arr1 cor_mat) gene_sets
                              weighted_score_type nperm scale single rs
      = Ok (es, esnull, map flatnonzero tags, map curve tags, rs')
      /\ Forall2 (fun e tag => es_of_fibre single (curve tag) = Ok e) es tags
      /\ Forall2 (null_scores single curve nperm) esnull tags.
Proof.
  intros M G gene_list cor_mat gene_sets w nperm scale single rs
         Hne Hlen Hgs Hw Hperm tags curve.
  unfold enrichment_score_tensor.
  assert (Qis0 w = false) as ->.
  { apply Qis0_false. intros H. rewrite H in Hw. now apply Qlt_irrefl in Hw. }
  apply Qltb_lt in Hw as Hwb. rewrite Hwb. cbv zeta.
  rewrite result_bind_Ok.
  rewrite (decide_False (P := sorted_keys gene_sets = []))
    by now apply sorted_keys_nonempty.
  rewrite result_bind_Ok.
  assert (Htags :
            rmapM (fun key => getitem gene_sets key
                              ≫= fun gs => Ok (in1d gene_list gs))
                  (sorted_keys gene_sets)
            = Ok tags).
  { apply rmapM_Ok_map. intros key Hkey.
    apply sorted_keys_lookup in Hkey as [gs Hgs'].
    unfold getitem. now rewrite Hgs'. }
  rewrite Htags, result_bind_Ok.
  rewrite (decide_False (P := nperm = 0)) by assumption.
  rewrite result_bind_Ok.
  pose proof (shuffle_tags_copies G nperm tags rs) as Hcopies.
  destruct (shuffle_tags G nperm tags rs) as [T rs'].
  cbn [fst] in Hcopies.
  unfold broadcast_to.
  rewrite decide_True by (now rewrite length_map', Hlen).
  rewrite !result_bind_Ok. cbv beta iota.
  rewrite zip_with_const_map.
  assert (Hres :
            (if scale
             then map (map (map (fun x => ndiv x (of_nat (length gene_list)))))
                      (map (fun fibres =>
                              map (res_fibre M w (map nabs cor_mat)) fibres) T)
             else map (fun fibres =>
                         map (res_fibre M w (map nabs cor_mat)) fibres) T)
            = map (map curve) T).
  { subst curve. unfold scaled_fibre. destruct scale; [|reflexivity].
    rewrite List.map_map. apply List.map_ext. intros fibres.
    now rewrite List.map_map. }
  rewrite Hres.
  destruct (tensor_tail single curve nperm tags T Hcopies)
    as (esm & es & H1 & H2 & H3 & H4 & H5).
  { intros tag p Htag Hp Hnil.
    apply (f_equal length) in Hnil. subst curve.
    rewrite length_scaled_fibre in Hnil.
    - apply Permutation_length in Hp. rewrite Hp in Hnil.
      subst tags. change map with (@fmap list _) in Htag.
      apply list_elem_of_fmap in Htag as (key & -> & _).
      unfold in1d in Hnil. rewrite length_map' in Hnil.
      destruct gene_list; [congruence | discriminate].
    - apply Permutation_length in Hp. rewrite Hp.
      subst tags. change map with (@fmap list _) in Htag.
      apply list_elem_of_fmap in Htag as (key & -> & _).
      unfold in1d. now rewrite !length_map'. }
  rewrite H1, result_bind_Ok, H2, result_bind_Ok, H3, result_bind_Ok.
  exists es, (map but_last esm), rs'. repeat split; assumption.
Qed.

(** X7: in one-dimensional mode the engine returns, for the gene sets in the
    order of their sorted names: the positions of the members of each set
    and the running sum of its unshuffled mask, which do not depend on the
    random state; the score of that running sum; and [nperm] null scores
    per gene set, each the score of a permutation of the mask. *)
Theorem enrichment_score_tensor_1d :
  forall (M : libm) (G : random_source) (gene_list : list gene)
         (cor_mat : list num) (gene_sets : gmap string (list gene))
         (weighted_score_type : Q) (nperm : nat) (scale single : bool)
         (rs : rng G),
    gene_list <> [] ->
    length cor_mat = length gene_list ->
    gene_sets <> ∅ ->
    (0 < weighted_score_type)%Q ->
    nperm <> 0 ->
    let tags :=
      map (fun key => in1d gene_list (default [] (gene_sets !! key)))
          (sorted_keys gene_sets) in
    let curve :=
      scaled_fibre M weighted_score_type scale (length gene_list)
                   (map nabs cor_mat) in
    exists es esnull rs',
      enrichment_score_tensor M G (Arr1 gene_list) (Arr1 cor_mat) gene_sets
                              weighted_score_type nperm scale single rs
      = Ok (es, esnull, map flatnonzero tags, map curve tags, rs')
      /\ Forall2 (fun e tag => es_of_fibre single (curve tag) = Ok e) es tags
      /\ Forall2 (null_scores single curve nperm) esnull tags.
Proof. exact tensor_1d_run. Qed.

Lemma enrichment_score_tensor_1d_witness :
  exists es esnull rs',
    enrichment_score_tensor coarse_libm lcg (Arr1 five_genes)
                            (Arr1 five_correl) one_set 1 2 true true 0%Z
    = Ok (es, esnull,
          map flatnonzero
              (map (fun key => in1d five_genes (default [] (one_set !! key)))
                   (sorted_keys one_set)),
          map (scaled_fibre coarse_libm 1 true (length five_genes)
                            (map nabs five_correl))
              (map (fun key => in1d five_genes (default [] (one_set !! key)))
                   (sorted_keys one_set)),
          rs')
    /\ Forall2 (fun e tag =>
                  es_of_fibre true
                    (scaled_fibre coarse_libm 1 true (length five_genes)
                                  (map nabs five_correl) tag) = Ok e)
               es
               (map (fun key => in1d five_genes (default [] (one_set !! key)))
                    (sorted_keys one_set))
    /\ Forall2 (null_scores true
                  (scaled_fibre coarse_libm 1 true (length five_genes)
                                (map nabs five_correl)) 2)
               esnull
               (map (fun key => in1d five_genes (default [] (one_set !! key)))
                    (sorted_keys one_set)).
Proof.
  apply (enrichment_score_tensor_1d coarse_libm lcg five_genes five_correl
           one_set 1 2 true true 0%Z);
    [discriminate | reflexivity | apply map_non_empty_singleton
    | reflexivity | discriminate].
Defined.

(** ** The two engines on one gene set *)





















(** ** The range of the enrichment score *)

Lemma has_value_fin (q : Q) : has_value (fin q) q.
Proof. exists (Qred q). split; [reflexivity | apply Qred_correct]. Qed.
























(** ** Edge inputs of the engines *)


(** X11: a negative exponent ends the tensor engine in [SystemExit]
    ([sys.exit(0)] at line 120), before any of its other arguments is
    looked at. *)
Theorem enrichment_score_tensor_negative_exponent :
  forall (M : libm) (G : random_source) (gene_mat : ndarray gene)
         (cor_mat : ndarray num) (gene_sets : gmap string (list gene))
         (weighted_score_type : Q) (nperm : nat) (scale single : bool)
         (rs : rng G),
    (weighted_score_type < 0)%Q ->
    enrichment_score_tensor M G gene_mat cor_mat gene_sets
                            weighted_score_type nperm scale single rs
    = Raise SystemExit.
Proof.
  intros M G gene_mat cor_mat gene_sets w nperm scale single rs Hw.
  unfold enrichment_score_tensor. cbv zeta.
  assert (Qis0 w = false) as -> by (apply Qis0_false; lra).
  assert (Qltb 0 w = false) as -> by (apply Qltb_ge; lra).
  reflexivity.
Qed.

Lemma enrichment_score_tensor_negative_exponent_witness :
  enrichment_score_tensor coarse_libm lcg (Arr1 five_genes)
                          (Arr1 five_correl) one_set (-1) 2 false false 0%Z
  = Raise SystemExit.
Proof.
  apply (enrichment_score_tensor_negative_exponent coarse_libm lcg
           (Arr1 five_genes) (Arr1 five_correl) one_set (-1) 2 false false
           0%Z).
  reflexivity.
Defined.

(** X12: with a positive exponent and a gene list of one dimension, the
    tensor engine raises [ValueError] on a collection of no gene set
    ([np.vstack] of no array) and on [nperm = 0] ([np.apply_along_axis]
    over no slice): it cannot be asked for the observed scores alone. *)
Theorem enrichment_score_tensor_needs_sets_and_permutations :
  forall (M : libm) (G : random_source) (gene_list : list gene)
         (cor_mat : ndarray num) (gene_sets : gmap string (list gene))
         (weighted_score_type : Q) (nperm : nat) (scale single : bool)
         (rs : rng G),
    (0 < weighted_score_type)%Q ->
    gene_sets = ∅ \/ nperm = 0 ->
    enrichment_score_tensor M G (Arr1 gene_list) cor_mat gene_sets
                            weighted_score_type nperm scale single rs
    = Raise ValueError.
Proof.
  intros M G gene_list cor_mat gene_sets w nperm scale single rs Hw Hedge.
  unfold enrichment_score_tensor. cbv zeta.
  assert (Qis0 w = false) as -> by (apply Qis0_false; lra).
  rewrite (proj2 (Qltb_lt _ _) Hw), result_bind_Ok.
  destruct (decide (gene_sets = ∅)) as [-> | Hgs]; [reflexivity|].
  destruct Hedge as [? | ->]; [contradiction|].
  rewrite (decide_False (P := sorted_keys gene_sets = []))
    by now apply sorted_keys_nonempty.
  rewrite result_bind_Ok.
  rewrite (rmapM_Ok_map _
             (fun key => in1d gene_list (default [] (gene_sets !! key)))).
  - reflexivity.
  - intros key Hkey. apply sorted_keys_lookup in Hkey as [gs Hgs'].
    unfold getitem. now rewrite Hgs'.
Qed.

Lemma enrichment_score_tensor_needs_sets_and_permutations_witness :
  enrichment_score_tensor coarse_libm lcg (Arr1 five_genes)
                          (Arr1 five_correl) one_set 1 0 false false 0%Z
  = Raise ValueError.
Proof.
  apply (enrichment_score_tensor_needs_sets_and_permutations coarse_libm lcg
           five_genes (Arr1 five_correl) one_set 1 0 false false 0%Z);
    [reflexivity | now right].
Defined.

(** ** The engine of the test script and the engine of the package *)

(** X16: on a gene list and correlations of one dimension and a positive
    exponent, the engine that the test script redefines returns what the
    engine of the package returns, errors included. *)
Theorem test_script_tensor_1d_agrees :
  forall (M : libm) (G : random_source) (gene_list : list gene)
         (cor : list num) (gene_sets : gmap string (list gene))
         (weighted_score_type : Q) (nperm : nat) (scale single : bool)
         (rs : rng G),
    (0 < weighted_score_type)%Q ->
    TestSsgsea.enrichment_score_tensor M G (Arr1 gene_list) (Arr1 cor)
                                       gene_sets weighted_score_type nperm
                                       scale single rs
    = enrichment_score_tensor M G (Arr1 gene_list) (Arr1 cor) gene_sets
                              weighted_score_type nperm scale single rs.
Proof.
  intros M G gene_list cor gene_sets w nperm scale single rs Hw.
  unfold TestSsgsea.enrichment_score_tensor, enrichment_score_tensor.
  cbv zeta.
  assert (Qis0 w = false) as -> by (apply Qis0_false; lra).
  rewrite (proj2 (Qltb_lt _ _) Hw), !result_bind_Ok.
  destruct (decide (sorted_keys gene_sets = [])); [reflexivity|].
  rewrite !result_bind_Ok.
  destruct (rmapM _ (sorted_keys gene_sets)) as [tags|]; [|reflexivity].
  rewrite !result_bind_Ok.
  destruct (decide (nperm = 0)); [reflexivity|].
  rewrite !result_bind_Ok.
  destruct (shuffle_tags G nperm tags rs) as [T rs'].
  destruct (broadcast_to (length gene_list) (map nabs cor)) as [c|];
    [|reflexivity].
  rewrite !result_bind_Ok. cbv beta iota.
  rewrite zip_with_const_map.
  assert (map (map (fun '(cor0, tag) => res_fibre M w cor0 tag))
              (map (map (fun tag => (c, tag))) T)
          = map (fun fibres => map (res_fibre M w c) fibres) T) as ->.
  { rewrite List.map_map. apply List.map_ext. intros fibres.
    now rewrite List.map_map. }
  reflexivity.
Qed.

Lemma test_script_tensor_1d_agrees_witness :
  TestSsgsea.enrichment_score_tensor coarse_libm lcg (Arr1 five_genes)
                                     (Arr1 five_correl) one_set 1 2 true true
                                     0%Z
  = enrichment_score_tensor coarse_libm lcg (Arr1 five_genes)
                            (Arr1 five_correl) one_set 1 2 true true 0%Z.
Proof.
  apply (test_script_tensor_1d_agrees coarse_libm lcg five_genes five_correl
           one_set 1 2 true true 0%Z).
  reflexivity.
Defined.

(** ** The null scores of the scalar engine *)

Lemma es_of_row_Ok (N : nat) (tag : list bool) (cw : list num) :
  tag <> [] -> length cw = length tag ->
  exists e RES, es_of_row N tag cw = Ok (e, RES).
Proof.
  intros Hne Hlen. unfold es_of_row. cbv zeta.
  set (RES := cumsum _).
  assert (HRES : length RES = length tag).
  { unfold RES, cumsum.
    rewrite length_cumsum_from, length_zip_with, !length_map',
      length_zip_with, !length_map'. lia. }
  destruct RES as [|x RES]; [destruct tag; [congruence | discriminate]|].
  simpl. eauto.
Qed.

Lemma Forall2_replicate_l {A B : Type} (P : A -> B -> Prop) (n : nat)
    (x : A) (l : list B) :
  Forall2 P (replicate n x) l -> length l = n /\ Forall (P x) l.
Proof.
  revert l. induction n as [|n IH]; intros l H; simpl in H;
    inversion H; subst; [split; [reflexivity | constructor]|].
  destruct (IH _ ltac:(eassumption)) as [<- ?].
  split; [reflexivity | now constructor].
Qed.

(** X9: asked for [esnull] null scores, the scalar engine returns that many
    scores (and no hit list or running sum), each the score of a
    permutation of the membership mask; [esnull = 0] is read as not
    set. *)
Theorem enrichment_score_nulls :
  forall (M : libm) (G : random_source) (gene_list gene_set : list gene)
         (weighted_score_type : Q) (correl_vector : list num) (k : nat)
         (rs : rng G),
    gene_list <> [] ->
    length correl_vector = length gene_list ->
    let N := length gene_list in
    let weights :=
      if Qis0 weighted_score_type then replicate N (Fin 1)
      else map (fun c => npow M (nabs c) weighted_score_type)
               correl_vector in
    (exists es rs',
        enrichment_score M G gene_list gene_set weighted_score_type
                         correl_vector (Some (S k)) rs
        = Ok (Nulls es, rs')
        /\ length es = S k
        /\ Forall (fun e =>
                     exists p RES,
                       p ≡ₚ in1d gene_list gene_set
                       /\ es_of_row N p weights = Ok (e, RES)) es)
    /\ enrichment_score M G gene_list gene_set weighted_score_type
                        correl_vector (Some 0) rs
       = enrichment_score M G gene_list gene_set weighted_score_type
                          correl_vector None rs.
Proof.
  intros M G gene_list gene_set w cor k rs Hne Hlen N weights.
  split; [|reflexivity].
  unfold enrichment_score. cbv zeta. fold N.
  assert (Hw : (if Qis0 w then Ok (replicate N (Fin 1))
                else broadcast_to N
                       (map (fun c => npow M (nabs c) w) cor))
               = Ok weights).
  { unfold weights. destruct (Qis0 w); [reflexivity|].
    unfold broadcast_to. now rewrite decide_True by (now rewrite length_map'). }
  rewrite Hw, result_bind_Ok.
  set (tag := in1d gene_list gene_set).
  assert (Htag : length tag = N) by (unfold tag, in1d; apply length_map').
  assert (Hweights : length weights = N).
  { unfold weights. destruct (Qis0 w);
      [apply length_replicate | now rewrite length_map']. }
  pose proof (shuffle_each_Permutation G (replicate (S k) tag) rs) as Hs.
  destruct (shuffle_each G (replicate (S k) tag) rs) as [tags rs'].
  cbn [fst] in Hs. apply Forall2_replicate_l in Hs as [Hk Hperm].
  destruct (rmapM_Forall2 (fun tag => fst <$> es_of_row N tag weights) tags)
    as (es & Hes & HF).
  { apply Forall_impl with (1 := Hperm). intros p Hp.
    destruct (es_of_row_Ok N p weights) as (e & RES & Hrow).
    - intros ->. apply Permutation_nil_l in Hp.
      apply (f_equal length) in Hp. rewrite Htag in Hp.
      unfold N in Hp. destruct gene_list; [congruence | discriminate].
    - apply Permutation_length in Hp. lia.
    - exists e. now rewrite Hrow. }
  rewrite Hes, result_bind_Ok. exists es, rs'.
  split; [reflexivity|]. split.
  - apply Forall2_length in HF. lia.
  - clear Hes Hk. induction HF as [|p e tags es Hp _ IH]; [constructor|].
    inversion Hperm; subst. constructor; [|now apply IH].
    destruct (es_of_row N p weights) as [[e' RES]|] eqn:E; [|discriminate].
    simpl in Hp. injection Hp as ->. now exists p, RES.
Qed.

Lemma enrichment_score_nulls_witness :
  (exists es rs',
      enrichment_score coarse_libm lcg five_genes ["A"%string] 1 five_correl
                       (Some 3) 0%Z
      = Ok (Nulls es, rs')
      /\ length es = 3
      /\ Forall (fun e =>
                   exists p RES,
                     p ≡ₚ in1d five_genes ["A"%string]
                     /\ es_of_row (length five_genes) p
                          (if Qis0 1 then replicate (length five_genes) (Fin 1)
                           else map (fun c => npow coarse_libm (nabs c) 1)
                                    five_correl)
                        = Ok (e, RES)) es)
  /\ enrichment_score coarse_libm lcg five_genes ["A"%string] 1 five_correl
                      (Some 0) 0%Z
     = enrichment_score coarse_libm lcg five_genes ["A"%string] 1 five_correl
                        None 0%Z.
Proof.
  apply (enrichment_score_nulls coarse_libm lcg five_genes ["A"%string] 1
           five_correl 2 0%Z);
    [discriminate | reflexivity].
Defined.

(** ** The records of [gsea_significance] *)

Lemma lookup_zip {A B : Type} (l : list A) (k : list B) (i : nat) (x : A)
    (y : B) :
  l !! i = Some x -> k !! i = Some y -> zip l k !! i = Some (x, y).
Proof. intros Hx Hy. now rewrite lookup_zip_with, Hx, Hy. Qed.

Lemma gsea_significance_lookup (es : list num) (esnull : list (list num)) :
  length esnull = length es ->
  exists recs,
    gsea_significance es esnull = Ok recs
    /\ length recs = length es
    /\ forall i e row,
         es !! i = Some e -> esnull !! i = Some row ->
         exists fdr,
           recs !! i = Some (e, nes_entry e row, pval_entry e row, fdr).
Proof.
  intros Hlen. unfold gsea_significance, gsea_pval.
  rewrite decide_True by exact Hlen. rewrite result_bind_Ok.
  unfold normalized_scores. cbv beta iota zeta delta [try_except].
  set (mp := map (fun enrNull : list num =>
                    np_mean (filter (fun a => Is_true (ngeb a (Fin 0)))
                                    enrNull)) esnull).
  set (mn := map (fun enrNull : list num =>
                    np_mean (filter (fun a => Is_true (nltb a (Fin 0)))
                                    enrNull)) esnull).
  set (means := zip mp mn).
  set (nes := zip_with _ es means).
  set (fdrs := map _ nes).
  eexists. split; [reflexivity|].
  assert (Hmeans : length means = length es).
  { unfold means, mp, mn. rewrite length_zip, !length_map'. lia. }
  assert (Hnes : length nes = length es).
  { unfold nes. rewrite length_zip_with. lia. }
  split.
  - rewrite !length_zip, length_zip_with, Hnes.
    unfold fdrs. rewrite length_map', Hnes. lia.
  - intros i e row He Hrow.
    assert (Hm : means !! i
                 = Some (np_mean (filter (fun a => Is_true (ngeb a (Fin 0)))
                                         row),
                         np_mean (filter (fun a => Is_true (nltb a (Fin 0)))
                                         row))).
    { unfold means, mp, mn. apply lookup_zip; now rewrite lookup_map, Hrow. }
    assert (Hn : nes !! i = Some (nes_entry e row)).
    { unfold nes. now rewrite lookup_zip_with, He, Hm. }
    eexists. apply lookup_zip; [apply lookup_zip; [apply lookup_zip|]|].
    + exact He.
    + exact Hn.
    + now rewrite lookup_zip_with, He, Hrow.
    + unfold fdrs. rewrite lookup_map, Hn. reflexivity.
Qed.

(** X18: a score that is [NaN] (a gene set with no gene in the list) is
    reported with the normalized score 0 and the nominal p-value 0:
    neither condition of the two [np.select] holds for it, and
    [np.select] then gives its default, 0. *)
Theorem gsea_significance_nan_score :
  forall (es : list num) (esnull : list (list num)) (i : nat),
    length esnull = length es ->
    es !! i = Some NaN ->
    exists recs fdr,
      gsea_significance es esnull = Ok recs
      /\ recs !! i = Some (NaN, Fin 0, Fin 0, fdr).
Proof.
  intros es esnull i Hlen He.
  destruct (gsea_significance_lookup es esnull Hlen) as (recs & Hrun & _ & H).
  destruct (lookup_lt_is_Some_2 esnull i) as [row Hrow].
  { rewrite Hlen. now apply lookup_lt_Some in He. }
  destruct (H i NaN row He Hrow) as [fdr Hrec].
  exists recs, fdr. split; [exact Hrun | exact Hrec].
Qed.

Lemma gsea_significance_nan_score_witness :
  exists recs fdr,
    gsea_significance [Fin (1 # 2); NaN]
                      [[Fin (1 # 4); Fin (-1 # 2)]; [NaN; NaN]]
    = Ok recs
    /\ recs !! 1 = Some (NaN, Fin 0, Fin 0, fdr).
Proof.
  apply (gsea_significance_nan_score [Fin (1 # 2); NaN]
           [[Fin (1 # 4); Fin (-1 # 2)]; [NaN; NaN]] 1);
    reflexivity.
Defined.

(** X19: [normalize], the function of one score that the pipeline no longer
    calls, and the vectorised normalisation of [gsea_significance] give
    the same normalized score to every score that is neither 0 nor
    [NaN]. *)
Theorem normalize_agrees :
  forall (es : list num) (esnull : list (list num)) (i : nat) (e : num)
         (row : list num),
    length esnull = length es ->
    es !! i = Some e -> esnull !! i = Some row ->
    neqb e (Fin 0) = false -> is_nan e = false ->
    exists recs p fdr,
      gsea_significance es esnull = Ok recs
      /\ recs !! i = Some (e, normalize e row, p, fdr).
Proof.
  intros es esnull i e row Hlen He Hrow H0 Hnan.
  destruct (gsea_significance_lookup es esnull Hlen) as (recs & Hrun & _ & H).
  destruct (H i e row He Hrow) as [fdr Hrec].
  exists recs, (pval_entry e row), fdr. split; [exact Hrun|].
  rewrite Hrec. do 4 f_equal.
  unfold nes_entry, normalize, np_select. rewrite H0.
  destruct e as [q| | |]; try discriminate; simpl.
  - unfold ngeb, nltb, nleb. simpl.
    destruct (Qle_bool 0 q) eqn:E; [reflexivity|].
    assert (Hlt : Qltb q 0 = true).
    { apply Qltb_lt. apply Qnot_le_lt. intros Hle.
      apply Qle_bool_iff in Hle. congruence. }
    now rewrite Hlt.
  - reflexivity.
  - reflexivity.
Qed.

Lemma normalize_agrees_witness :
  exists recs p fdr,
    gsea_significance two_sets_es two_sets_esnull = Ok recs
    /\ recs !! 1
       = Some (Fin (-1 # 2),
               normalize (Fin (-1 # 2)) [Fin (1 # 4); Fin (-1 # 2); Fin (-1)],
               p, fdr).
Proof.
  apply (normalize_agrees two_sets_es two_sets_esnull 1 (Fin (-1 # 2))
           [Fin (1 # 4); Fin (-1 # 2); Fin (-1)]);
    reflexivity.
Defined.

(** ** The sign of the normalized score *)

Lemma foldl_nadd_nonneg (l : list num) (a : Q) :
  Forall (fun x => exists q, x = Fin q /\ (0 <= q)%Q) l -> (0 <= a)%Q ->
  exists s, foldl nadd (Fin a) l = Fin s /\ (0 <= s)%Q.
Proof.
  intros H. revert a.
  induction H as [|x l (q & -> & Hq) _ IH]; intros a Ha; simpl; [eauto|].
  apply IH. rewrite Qred_correct. lra.
Qed.

Lemma foldl_nadd_neg (l : list num) (a : Q) :
  Forall (fun x => exists q, x = Fin q /\ (q < 0)%Q) l -> (a < 0)%Q ->
  exists s, foldl nadd (Fin a) l = Fin s /\ (s < 0)%Q.
Proof.
  intros H. revert a.
  induction H as [|x l (q & -> & Hq) _ IH]; intros a Ha; simpl; [eauto|].
  apply IH. rewrite Qred_correct. lra.
Qed.

Lemma Qdiv_of_nat_sign (s : Q) (n : nat) :
  n <> 0 ->
  ((0 <= s)%Q -> (0 <= s / (Z.of_nat n # 1))%Q)
  /\ ((s < 0)%Q -> (s / (Z.of_nat n # 1) < 0)%Q).
Proof.
  intros Hn.
  assert (Hpos : (0 < Z.of_nat n # 1)%Q) by (unfold Qlt; simpl; lia).
  assert (Hinv : (0 < / (Z.of_nat n # 1))%Q) by now apply Qinv_lt_0_compat.
  unfold Qdiv. split; intros Hs.
  - now apply Qmult_le_0_compat; [|apply Qlt_le_weak].
  - assert (H : (0 < - s * / (Z.of_nat n # 1))%Q)
      by (apply Qmult_lt_0_compat; lra).
    lra.
Qed.

Lemma Qdiv_pos_neg (a m : Q) : (0 < a)%Q -> (m < 0)%Q -> (a / m < 0)%Q.
Proof.
  intros Ha Hm.
  assert (H1 : (0 < a / - m)%Q) by (apply Qlt_shift_div_l; lra).
  assert (H2 : (a / m == - (a / - m))%Q) by (field; lra).
  lra.
Qed.

(** The mean of the null scores that are not negative is [NaN] or not
    negative; the mean of the negative ones is [NaN] or negative. *)
Lemma meanPos_sign (row : list num) :
  Forall (fun x => isfinite x = true) row ->
  let meanPos := np_mean (filter (fun a => Is_true (ngeb a (Fin 0))) row) in
  meanPos = NaN \/ exists m, meanPos = Fin m /\ (0 <= m)%Q.
Proof.
  intros Hfin. cbv zeta. unfold np_mean.
  set (l := filter _ row).
  assert (Hl : Forall (fun x => exists q, x = Fin q /\ (0 <= q)%Q) l).
  { apply Forall_forall. intros x [Hx Hin]%list_elem_of_filter.
    rewrite Forall_forall in Hfin. specialize (Hfin x Hin).
    destruct x as [q| | |]; try discriminate.
    exists q. split; [reflexivity|].
    apply Qle_bool_iff. now apply Is_true_true. }
  destruct (foldl_nadd_nonneg l 0 Hl ltac:(lra)) as (s & Hs & Hs0).
  destruct l as [|x l']; [now left|]. right.
  unfold nsum. rewrite Hs.
  unfold ndiv, of_nat.
  assert (Qis0 (Z.of_nat (length (x :: l')) # 1) = false) as ->.
  { apply Qis0_false. unfold Qeq. simpl. lia. }
  eexists. split; [reflexivity|]. rewrite Qred_correct.
  now apply Qdiv_of_nat_sign.
Qed.

Lemma meanNeg_sign (row : list num) :
  Forall (fun x => isfinite x = true) row ->
  let meanNeg := np_mean (filter (fun a => Is_true (nltb a (Fin 0))) row) in
  meanNeg = NaN \/ exists m, meanNeg = Fin m /\ (m < 0)%Q.
Proof.
  intros Hfin. cbv zeta. unfold np_mean.
  set (l := filter _ row).
  assert (Hl : Forall (fun x => exists q, x = Fin q /\ (q < 0)%Q) l).
  { apply Forall_forall. intros x [Hx Hin]%list_elem_of_filter.
    rewrite Forall_forall in Hfin. specialize (Hfin x Hin).
    destruct x as [q| | |]; try discriminate.
    exists q. split; [reflexivity|].
    apply Qltb_lt. now apply Is_true_true. }
  destruct l as [|x l']; [now left|]. right.
  inversion Hl as [|? ? (q & -> & Hq) Hl']; subst.
  unfold nsum. cbn [foldl].
  destruct (foldl_nadd_neg l' (Qred (0 + q)) Hl') as (s & Hs & Hs0).
  { rewrite Qred_correct. lra. }
  change (nadd (Fin 0) (Fin q)) with (Fin (Qred (0 + q))). rewrite Hs.
  unfold ndiv, of_nat.
  assert (Qis0 (Z.of_nat (length (Fin q :: l')) # 1) = false) as ->.
  { apply Qis0_false. unfold Qeq. simpl. lia. }
  eexists. split; [reflexivity|]. rewrite Qred_correct.
  now apply Qdiv_of_nat_sign.
Qed.

Lemma nes_entry_sign (e : num) (row : list num) :
  Forall (fun x => isfinite x = true) row ->
  (ngeb e (Fin 0) = true ->
   nes_entry e row = NaN \/ ngeb (nes_entry e row) (Fin 0) = true)
  /\ (nltb e (Fin 0) = true ->
      nes_entry e row = NaN \/ nltb (nes_entry e row) (Fin 0) = true).
Proof.
  intros Hfin. unfold nes_entry. cbv zeta. unfold np_select. split; intros He.
  - rewrite He.
    destruct (meanPos_sign row Hfin) as [-> | (m & -> & Hm)].
    { left. now destruct e. }
    destruct e as [x| | |]; try discriminate.
    + unfold ndiv. destruct (Qis0 m) eqn:Em.
      * destruct (Qis0 x) eqn:Ex; [now left|]. right.
        assert (Qltb 0 x = true) as ->; [|reflexivity].
        apply Qltb_lt. apply Qle_bool_iff in He.
        apply Qis0_false in Ex. apply Qle_lteq in He as [? | Heq];
          [assumption|].
        exfalso. apply Ex. now symmetry.
      * right. apply Qle_bool_iff. rewrite Qred_correct.
        apply Qle_bool_iff in He. apply Qis0_false in Em.
        apply Qle_shift_div_l; lra.
    + right. unfold ndiv.
      now rewrite (proj2 (Qltb_ge m 0) Hm).
  - assert (ngeb e (Fin 0) = false) as ->.
    { destruct e as [x| | |]; try discriminate; [|reflexivity].
      apply Qltb_lt in He. unfold ngeb, nleb.
      apply not_true_iff_false. rewrite Qle_bool_iff. lra. }
    rewrite He.
    destruct (meanNeg_sign row Hfin) as [-> | (m & -> & Hm)].
    { left. now destruct e. }
    destruct e as [x| | |]; try discriminate.
    + right. apply Qltb_lt in He. unfold nneg, fin, ndiv.
      assert (Qis0 m = false) as -> by (apply Qis0_false; lra).
      apply Qltb_lt. rewrite !Qred_correct.
      apply Qdiv_pos_neg; lra.
    + right. unfold nneg, ndiv.
      now rewrite (proj2 (Qltb_lt m 0) Hm).
Qed.

(** X20: normalisation keeps the sign of a score when the null scores of
    its gene set are finite: the normalized score of a score that is not
    negative is not negative, that of a negative score is negative, unless
    it is [NaN] (no null score of that sign). *)
Theorem gsea_significance_nes_sign :
  forall (es : list num) (esnull : list (list num)) (i : nat) (e : num)
         (row : list num),
    length esnull = length es ->
    es !! i = Some e -> esnull !! i = Some row ->
    Forall (fun x => isfinite x = true) row ->
    exists recs nes p fdr,
      gsea_significance es esnull = Ok recs
      /\ recs !! i = Some (e, nes, p, fdr)
      /\ (ngeb e (Fin 0) = true -> nes = NaN \/ ngeb nes (Fin 0) = true)
      /\ (nltb e (Fin 0) = true -> nes = NaN \/ nltb nes (Fin 0) = true).
Proof.
  intros es esnull i e row Hlen He Hrow Hfin.
  destruct (gsea_significance_lookup es esnull Hlen) as (recs & Hrun & _ & H).
  destruct (H i e row He Hrow) as [fdr Hrec].
  exists recs, (nes_entry e row), (pval_entry e row), fdr.
  split; [exact Hrun|]. split; [exact Hrec|].
  now apply nes_entry_sign.
Qed.

Lemma gsea_significance_nes_sign_witness :
  exists recs nes p fdr,
    gsea_significance two_sets_es two_sets_esnull = Ok recs
    /\ recs !! 1 = Some (Fin (-1 # 2), nes, p, fdr)
    /\ (ngeb (Fin (-1 # 2)) (Fin 0) = true ->
        nes = NaN \/ ngeb nes (Fin 0) = true)
    /\ (nltb (Fin (-1 # 2)) (Fin 0) = true ->
        nes = NaN \/ nltb nes (Fin 0) = true).
Proof.
  apply (gsea_significance_nes_sign two_sets_es two_sets_esnull 1
           (Fin (-1 # 2)) [Fin (1 # 4); Fin (-1 # 2); Fin (-1)]);
    [reflexivity | reflexivity | reflexivity | repeat constructor].
Defined.

(** ** The ranking of the genes *)

Lemma pd_before_trans (ascending : bool) : Transitive (pd_before ascending).
Proof.
  intros [g1 a] [g2 b] [g3 c]. unfold pd_before. cbn [snd].
  destruct c as [z| | |]; cbn [is_nan orb]; try (intros; reflexivity);
    (destruct b as [y| | |]; cbn [is_nan orb negb andb];
     try (intros; discriminate));
    (destruct a as [x| | |]; cbn [is_nan orb negb andb];
     try (intros; discriminate));
    destruct ascending; intros H1 H2;
    first [ exact (nleb_trans _ _ _ H1 H2) | exact (nleb_trans _ _ _ H2 H1) ].
Qed.

Lemma pd_before_total (ascending : bool) : Total (pd_before ascending).
Proof.
  intros [g1 a] [g2 b]. unfold pd_before. cbn [snd].
  destruct a as [x| | |], b as [y| | |]; cbn [is_nan orb negb andb]; auto;
    destruct ascending; simpl; auto;
    rewrite !Qle_bool_iff;
    destruct (Qlt_le_dec x y) as [H|H]; auto using Qlt_le_weak.
Qed.

Lemma ranking_metric_inv (M : libm) (df : dataframe) (method : string)
    (phenoPos phenoNeg : string) (classes : list string) (ascending : bool)
    (f : rank_frame) :
  ranking_metric M df method phenoPos phenoNeg classes ascending = Ok f ->
  exists sr,
    length sr = length (values df)
    /\ f = {| gene_name :=
                map fst (merge_sort (pd_before ascending) (zip (index df) sr));
              rank :=
                map snd (merge_sort (pd_before ascending)
                                    (zip (index df) sr)) |}.
Proof.
  unfold ranking_metric. cbv zeta.
  destruct (decide (length classes = length (columns df))); [|discriminate].
  rewrite result_bind_Ok.
  destruct (method_of method) as [m|]; [|discriminate].
  destruct (decide (phenoPos ∈ classes ∧ phenoNeg ∈ classes));
    [|discriminate].
  rewrite !result_bind_Ok. intros [= <-].
  eexists. split; [|reflexivity].
  rewrite length_zip_with, !length_zip, !length_map'. lia.
Qed.

(** X21: the frame that [ranking_metric] returns holds every gene of the
    expression table once, and its rows are in the order asked for,
    ascending or descending, with the genes whose metric is [NaN] last in
    both; [_rnknull] returns the two columns of that frame. *)
Theorem ranking_metric_sorted :
  forall (M : libm) (df : dataframe) (method phenoPos phenoNeg : string)
         (classes : list string) (ascending : bool) (f : rank_frame),
    length (index df) = length (values df) ->
    ranking_metric M df method phenoPos phenoNeg classes ascending = Ok f ->
    gene_name f ≡ₚ index df
    /\ length (rank f) = length (gene_name f)
    /\ StronglySorted (pd_before ascending) (zip (gene_name f) (rank f))
    /\ _rnknull M df method phenoPos phenoNeg classes ascending
       = Ok (rank f, gene_name f).
Proof.
  intros M df method phenoPos phenoNeg classes ascending f Hlen Hrun.
  destruct (ranking_metric_inv _ _ _ _ _ _ _ _ Hrun) as (sr & Hsr & ->).
  cbn [gene_name rank].
  set (sorted := merge_sort (pd_before ascending) (zip (index df) sr)).
  assert (Hperm : sorted ≡ₚ zip (index df) sr)
    by apply merge_sort_Permutation.
  repeat split.
  - change (map fst sorted) with (sorted.*1). rewrite Hperm.
    now rewrite fst_zip by lia.
  - now rewrite !length_map'.
  - change (zip (map fst sorted) (map snd sorted))
      with (zip (sorted.*1) (sorted.*2)).
    rewrite zip_fst_snd.
    apply (@StronglySorted_merge_sort _ (pd_before ascending) _
             (pd_before_trans ascending) (pd_before_total ascending)).
  - unfold _rnknull. now rewrite Hrun.
Qed.

Lemma ranking_metric_sorted_witness :
  gene_name {| gene_name := ["g2"; "g1"]%string;
               rank := [Fin (-1); Fin (-4)] |} ≡ₚ index two_by_two
  /\ length (rank {| gene_name := ["g2"; "g1"]%string;
                     rank := [Fin (-1); Fin (-4)] |})
     = length (gene_name {| gene_name := ["g2"; "g1"]%string;
                            rank := [Fin (-1); Fin (-4)] |})
  /\ StronglySorted (pd_before false)
       (zip (gene_name {| gene_name := ["g2"; "g1"]%string;
                          rank := [Fin (-1); Fin (-4)] |})
            (rank {| gene_name := ["g2"; "g1"]%string;
                     rank := [Fin (-1); Fin (-4)] |}))
  /\ _rnknull coarse_libm two_by_two "diff_of_classes" "P" "N"
              ["P"; "N"]%string false
     = Ok (rank {| gene_name := ["g2"; "g1"]%string;
                   rank := [Fin (-1); Fin (-4)] |},
           gene_name {| gene_name := ["g2"; "g1"]%string;
                        rank := [Fin (-1); Fin (-4)] |}).
Proof.
  apply (ranking_metric_sorted coarse_libm two_by_two "diff_of_classes" "P"
           "N" ["P"; "N"]%string false);
    [reflexivity | vm_compute; reflexivity].
Defined.

(** X22: [ranking_metric] looks at the method before it looks up the two
    phenotype labels: with one class label per sample, a method name that
    is not one of the five ends in [SystemExit], a known method with a
    label that no sample carries in [KeyError], and every other call
    returns a frame. *)
Theorem ranking_metric_outcome :
  forall (M : libm) (df : dataframe) (method phenoPos phenoNeg : string)
         (classes : list string) (ascending : bool),
    length classes = length (columns df) ->
    (method_of method = None ->
     ranking_metric M df method phenoPos phenoNeg classes ascending
     = Raise SystemExit)
    /\ (method_of method <> None ->
        ~ (phenoPos ∈ classes /\ phenoNeg ∈ classes) ->
        ranking_metric M df method phenoPos phenoNeg classes ascending
        = Raise KeyError)
    /\ (method_of method <> None ->
        phenoPos ∈ classes -> phenoNeg ∈ classes ->
        exists f,
          ranking_metric M df method phenoPos phenoNeg classes ascending
          = Ok f).
Proof.
  intros M df method phenoPos phenoNeg classes ascending Hlen.
  unfold ranking_metric. cbv zeta.
  rewrite (decide_True (P := length classes = length (columns df)))
    by exact Hlen.
  rewrite result_bind_Ok.
  repeat split.
  - now intros ->.
  - intros Hm Hlab. destruct (method_of method); [|congruence].
    now rewrite decide_False by exact Hlab.
  - intros Hm Hpos Hneg. destruct (method_of method); [|congruence].
    rewrite decide_True by (now split). rewrite !result_bind_Ok. eauto.
Qed.

Lemma ranking_metric_outcome_witness :
  ranking_metric coarse_libm two_by_two "mean" "P" "Q" ["P"; "N"]%string
                 false
  = Raise SystemExit
  /\ ranking_metric coarse_libm two_by_two "t_test" "P" "Q"
                    ["P"; "N"]%string false
     = Raise KeyError.
Proof.
  destruct (ranking_metric_outcome coarse_libm two_by_two "t_test" "P" "Q"
              ["P"; "N"]%string false eq_refl) as (_ & Hkey & _).
  destruct (ranking_metric_outcome coarse_libm two_by_two "mean" "P" "Q"
              ["P"; "N"]%string false eq_refl) as (Hexit & _ & _).
  split.
  - apply Hexit. reflexivity.
  - apply Hkey; [discriminate|].
    intros [_ HQ]. revert HQ. apply (bool_decide_unpack _). vm_compute.
    reflexivity.
Defined.

(** ** The tensor of ranking metrics *)

Lemma fst_imap {A : Type} (l : list A) :
  map fst (imap (fun i x => (i, x)) l) = seq 0 (length l).
Proof.
  apply list_eq. intros i.
  rewrite lookup_map, list_lookup_imap.
  destruct (l !! i) as [x|] eqn:E; simpl.
  - apply lookup_lt_Some in E. now rewrite lookup_seq_lt.
  - apply lookup_ge_None in E. now rewrite lookup_seq_ge.
Qed.

Lemma argsort_Permutation (l : list num) : argsort l ≡ₚ seq 0 (length l).
Proof.
  unfold argsort. rewrite <- fst_imap.
  change (map fst ?x) with (x.*1).
  now rewrite merge_sort_Permutation.
Qed.

(** Taking the positions [0 .. n-1], in some order, of an array whose
    first [n] items are the items of [K]. *)
Lemma take_positions {A : Type} (L K : list A) (idx : list nat) :
  idx ≡ₚ seq 0 (length K) ->
  (forall i, i < length K -> L !! i = K !! i) ->
  exists out,
    rmapM (fun i => match L !! i with
                    | Some x => Ok x
                    | None => Raise IndexError
                    end) idx = Ok out
    /\ out ≡ₚ K.
Proof.
  intros Hidx HL.
  set (f := fun i : nat => match L !! i with
                           | Some x => Ok x
                           | None => Raise IndexError
                           end).
  destruct (rmapM_Forall2 f idx) as (out & Hout & HF).
  { apply Forall_forall. intros i Hi. rewrite Hidx in Hi.
    apply elem_of_seq in Hi.
    destruct (lookup_lt_is_Some_2 K i) as [y Hy]; [lia|].
    exists y. unfold f. now rewrite HL, Hy by lia. }
  exists out. split; [exact Hout|].
  destruct (Permutation_Forall2 Hidx HF) as (out' & Hperm & HF').
  rewrite Hperm. clear -HF' HL.
  assert (out' = K) as ->; [|reflexivity].
  apply list_eq_same_length with (length K); [reflexivity| |].
  - pose proof (Forall2_length _ _ _ HF') as Hl.
    rewrite length_seq in Hl. lia.
  - intros i x y Hi Hx Hy.
    destruct (Forall2_lookup_r _ _ _ _ _ HF' Hx) as (j & Hj & Hf).
    apply lookup_seq in Hj as [-> _]. simpl in Hf. unfold f in Hf.
    rewrite HL, Hy in Hf by lia. congruence.
Qed.

Lemma take_flat_rows {A : Type} (a : list (list A)) (first : list A)
    (rows : list (list num)) :
  (forall i, i < length first -> concat a !! i = first !! i) ->
  Forall (fun row => length row = length first) rows ->
  exists out,
    take_flat a (map argsort rows) = Ok out
    /\ length out = length rows
    /\ Forall (fun r => r ≡ₚ first) out.
Proof.
  intros Ha. unfold take_flat.
  induction 1 as [|row rows Hrow _ (out & Hout & Hlen & Hall)]; simpl.
  - exists []. repeat split; constructor.
  - destruct (take_positions (concat a) first (argsort row))
      as (r & Hr & Hperm).
    { rewrite argsort_Permutation. now rewrite Hrow. }
    { exact Ha. }
    rewrite Hr, Hout. simpl. exists (r :: out).
    split; [reflexivity|]. split; [simpl; lia | now constructor].
Qed.

Lemma metric_rows {X : Type} (T : list X) (F1 F2 F3 F4 : X -> list num)
    (h : num * num -> num * num -> num) (n : nat) :
  (forall x, length (F1 x) = n) -> (forall x, length (F2 x) = n) ->
  (forall x, length (F3 x) = n) -> (forall x, length (F4 x) = n) ->
  let C :=
    zip_with (fun '(pm, nm) '(ps, ns) => zip_with h (zip pm nm) (zip ps ns))
             (zip (map F1 T) (map F2 T)) (zip (map F3 T) (map F4 T)) in
  length C = length T /\ Forall (fun row => length row = n) C.
Proof.
  intros H1 H2 H3 H4. cbv zeta.
  induction T as [|x T [IHl IHf]]; simpl; [split; [reflexivity|constructor]|].
  split; [now rewrite IHl|]. constructor; [|exact IHf].
  rewrite length_zip_with, !length_zip, H1, H2, H3, H4. lia.
Qed.

Lemma length_shuffle_each (G : random_source) {A : Type}
    (rows : list (list A)) (st : rng G) :
  length (fst (shuffle_each G rows st)) = length rows.
Proof.
  pose proof (shuffle_each_Permutation G rows st) as H.
  apply Forall2_length in H. lia.
Qed.

Lemma rank_metric_tensor_run (M : libm) (G : random_source)
    (exprs : dataframe) (method pos neg : string) (permutation_num : nat)
    (classes : list string) (ascending : bool) (rs : rng G) :
  length classes = length (columns exprs) ->
  method_of method <> None ->
  exists genes_mat cor_mat rs' first,
    rank_metric_tensor M G exprs method permutation_num pos neg classes
                       ascending rs
    = Ok (genes_mat, cor_mat, rs')
    /\ length genes_mat = S permutation_num
    /\ length cor_mat = S permutation_num
    /\ Forall (fun row => row ≡ₚ index exprs) genes_mat
    /\ Forall (fun row => row ≡ₚ first) cor_mat
    /\ length first = length (index exprs).
Proof.
  revert permutation_num. intros n Hlen Hm.
  unfold rank_metric_tensor. cbv zeta.
  pose proof (length_shuffle_each G
                (replicate n (transpose (length (columns exprs))
                                        (values exprs))) rs) as Hsh.
  destruct (shuffle_each G _ rs) as [shuffled rs'].
  cbn [fst] in Hsh. rewrite length_replicate in Hsh.
  rewrite decide_True by exact Hlen. rewrite result_bind_Ok.
  destruct (method_of method) as [m|]; [clear Hm | congruence].
  rewrite result_bind_Ok.
  set (T := shuffled ++ [transpose (length (columns exprs)) (values exprs)]).
  set (C := zip_with _ _ _).
  assert (HC : length C = length T
               /\ Forall (fun row => length row = length (index exprs)) C).
  { apply (metric_rows T _ _ _ _
             (fun '(a, b) '(c, d) =>
                class_metric M m (of_nat (length (index exprs))) a b c d));
      intros x; now rewrite length_map', length_seq. }
  destruct HC as [HlenC HrowsC].
  assert (HT : length T = S n).
  { unfold T. rewrite length_app. simpl. lia. }
  destruct (take_flat_rows (replicate (S n) (index exprs)) (index exprs) C)
    as (genes_mat & Hgenes & Hglen & Hgperm).
  { intros i Hi. simpl. now rewrite lookup_app_l. }
  { exact HrowsC. }
  destruct C as [|first C'] eqn:EC; [simpl in HlenC; lia|].
  destruct (take_flat_rows (first :: C') first (first :: C'))
    as (cor_mat & Hcor & Hclen & Hcperm).
  { intros i Hi. simpl. now rewrite lookup_app_l. }
  { inversion HrowsC as [|? ? Hfirst Hrest]; subst.
    constructor; [reflexivity|].
    eapply Forall_impl; [exact Hrest|]. intros row Hrow. simpl in Hrow.
    lia. }
  rewrite Hgenes, result_bind_Ok, Hcor, result_bind_Ok.
  simpl in Hglen, Hclen, HlenC.
  assert (Hfirst : length first = length (index exprs))
    by now inversion HrowsC.
  destruct ascending.
  - exists genes_mat, cor_mat, rs', first. repeat split; try assumption; lia.
  - exists (map reverse genes_mat), (map reverse cor_mat), rs', first.
    rewrite !length_map'. repeat split; try lia.
    + apply Forall_map with (P := fun r => r ≡ₚ index exprs);
        [|exact Hgperm].
      intros r Hr. now rewrite reverse_Permutation.
    + apply Forall_map with (P := fun r => r ≡ₚ first); [|exact Hcperm].
      intros r Hr. now rewrite reverse_Permutation.
Qed.

(** X23: with one class label per sample and a known method,
    [rank_metric_tensor] returns [permutation_num + 1] rows of genes and as
    many rows of correlations; every row of genes is the gene list in
    some order, and every row of correlations holds, in some order, the
    same values, those of one replicate: [take] with no axis indexes the
    flattened matrix, where the positions [0 .. M-1] are its first row. *)
Theorem rank_metric_tensor_rows :
  forall (M : libm) (G : random_source) (exprs : dataframe)
         (method pos neg : string) (permutation_num : nat)
         (classes : list string) (ascending : bool) (rs : rng G),
    length classes = length (columns exprs) ->
    method_of method <> None ->
    exists genes_mat cor_mat rs' first,
      rank_metric_tensor M G exprs method permutation_num pos neg classes
                         ascending rs
      = Ok (genes_mat, cor_mat, rs')
      /\ length genes_mat = S permutation_num
      /\ length cor_mat = S permutation_num
      /\ Forall (fun row => row ≡ₚ index exprs) genes_mat
      /\ Forall (fun row => row ≡ₚ first) cor_mat.
Proof.
  intros M G exprs method pos neg n classes ascending rs Hlen Hm.
  destruct (rank_metric_tensor_run M G exprs method pos neg n classes
              ascending rs Hlen Hm)
    as (genes_mat & cor_mat & rs' & first & H1 & H2 & H3 & H4 & H5 & _).
  now exists genes_mat, cor_mat, rs', first.
Qed.

Lemma rank_metric_tensor_rows_witness :
  exists genes_mat cor_mat rs' first,
    rank_metric_tensor coarse_libm lcg two_by_two "diff_of_classes" 1 "P" "N"
                       ["P"; "N"]%string false (seed_rng lcg 0)
    = Ok (genes_mat, cor_mat, rs')
    /\ length genes_mat = 2
    /\ length cor_mat = 2
    /\ Forall (fun row => row ≡ₚ index two_by_two) genes_mat
    /\ Forall (fun row => row ≡ₚ first) cor_mat.
Proof.
  apply (rank_metric_tensor_rows coarse_libm lcg two_by_two "diff_of_classes"
           "P" "N" 1 ["P"; "N"]%string false (seed_rng lcg 0));
    [reflexivity | discriminate].
Defined.

(** ** [shuffle_list] *)

(** X4: [shuffle_list] returns its argument in some order: no gene is lost
    and none is added. *)
Theorem shuffle_list_Permutation (G : random_source) {A : Type}
    (gene_list : list A) (rs : rng G) :
  fst (shuffle_list G gene_list rs) ≡ₚ gene_list.
Proof. apply shuffle_from_Permutation. Qed.

(** ** The pipelines *)

Lemma rmapM_inv {A B : Type} (f : A -> result B) (l : list A)
    (out : list B) :
  rmapM f l = Ok out -> Forall2 (fun x y => f x = Ok y) l out.
Proof.
  revert out. induction l as [|x l IH]; intros out H; simpl in H.
  - injection H as <-. constructor.
  - destruct (f x) as [y|] eqn:E; [|discriminate]. simpl in H.
    destruct (rmapM f l) as [ys|]; [|discriminate]. simpl in H.
    injection H as <-. constructor; auto.
Qed.



Lemma tensor_1d_hits (M : libm) (G : random_source) (gene_list : list gene)
    (cor : list num) (gene_sets : gmap string (list gene)) (w : Q)
    (nperm : nat) (scale single : bool) (rs : rng G) es esnull hit_ind RES
    rs' :
  enrichment_score_tensor M G (Arr1 gene_list) (Arr1 cor) gene_sets w nperm
                          scale single rs
  = Ok (es, esnull, hit_ind, RES, rs') ->
  hit_ind
  = map (fun key => flatnonzero (in1d gene_list (default [] (gene_sets !! key))))
        (sorted_keys gene_sets).
Proof.
  unfold enrichment_score_tensor. cbv zeta.
  destruct (Qis0 w); [discriminate|].
  destruct (Qltb 0 w); [|discriminate].
  rewrite result_bind_Ok.
  destruct (decide (sorted_keys gene_sets = [])); [discriminate|].
  rewrite result_bind_Ok.
  rewrite (rmapM_Ok_map _
             (fun key => in1d gene_list (default [] (gene_sets !! key)))).
  2: { intros key Hkey. apply sorted_keys_lookup in Hkey as [gs Hgs'].
       unfold getitem. now rewrite Hgs'. }
  rewrite result_bind_Ok.
  destruct (decide (nperm = 0)); [discriminate|].
  rewrite result_bind_Ok.
  destruct (shuffle_tags G nperm _ rs) as [T rs1].
  destruct (broadcast_to (length gene_list) (map nabs cor)) as [c|];
    [|discriminate].
  rewrite !result_bind_Ok. cbv beta iota.
  destruct (rmapM (rmapM (es_of_fibre single)) _) as [esm|]; [|discriminate].
  rewrite result_bind_Ok.
  destruct (rmapM last_item esm) as [es0|]; [|discriminate].
  rewrite result_bind_Ok.
  destruct (rmapM last_item _) as [RES0|]; [|discriminate].
  rewrite result_bind_Ok. intros [= _ _ <- _ _].
  now rewrite List.map_map.
Qed.

(** X25: when the permutation type is not [phenotype], the hit lists that
    [gsea_compute] returns are positions in the index of the table it was
    given: the gene names are read (line 400) before [ranking_metric]
    sorts the table (line 402), and the correlations are read after
    (line 404). *)
Theorem gsea_compute_hits_input_order :
  forall (M : libm) (G : random_source) (os_entropy : rng G)
         (data : dataframe) (gmt : gmap string (list gene)) (n : nat)
         (weighted_score_type : Q)
         (permutation_type method phenoPos phenoNeg : string)
         (classes : list string) (ascending : bool) (seed : option Z)
         (processes : nat) (scale prerank : bool)
         significance hit_ind RES subsets,
    permutation_type <> "phenotype"%string ->
    gsea_compute M G os_entropy data gmt n weighted_score_type
                 permutation_type method phenoPos phenoNeg classes ascending
                 seed processes scale prerank
    = Ok (significance, hit_ind, RES, subsets) ->
    subsets = sorted_keys gmt
    /\ hit_ind
       = map (fun key =>
                flatnonzero (in1d (index data) (default [] (gmt !! key))))
             subsets.
Proof.
  intros M G os_entropy data gmt n w ptype method pos neg classes ascending
         seed processes scale prerank sig hit_ind RES subsets Hptype.
  unfold gsea_compute. cbv zeta.
  rewrite decide_False by exact Hptype.
  destruct (if prerank then get_column data "rank"
            else rank <$> ranking_metric M data method pos neg classes
                                         ascending) as [cor_vec|];
    [|discriminate].
  rewrite result_bind_Ok.
  destruct (enrichment_score_tensor M G (Arr1 (index data)) (Arr1 cor_vec)
              gmt w n false false (RandomState G os_entropy seed))
    as [[[[[es esnull] hit] RES0] rs']|] eqn:Hrun; [|discriminate].
  rewrite result_bind_Ok. cbv beta iota.
  destruct (gsea_significance es esnull) as [sig0|]; [|discriminate].
  rewrite result_bind_Ok. intros [= _ <- _ <-].
  split; [reflexivity|]. now apply tensor_1d_hits in Hrun.
Qed.

Lemma gsea_compute_hits_input_order_witness :
  ["S"%string] = sorted_keys first_gene
  /\ [[0]]
     = map (fun key =>
              flatnonzero
                (in1d (index two_by_two)
                      (default [] (first_gene !! key))))
           ["S"%string].
Proof.
  apply (gsea_compute_hits_input_order coarse_libm lcg 0%Z two_by_two
           first_gene 1 1 "gene_set"
           "diff_of_classes" "P" "N" ["P"; "N"]%string false (Some 0%Z) 1
           false false
           [(Fin 1, NaN, NaN, sentinel)] [[0]] [[Fin 1; Fin 0]]
           ["S"%string]);
    [discriminate | vm_compute; reflexivity].
Defined.

(** On the table [two_by_two] the ranking is [g2] (-1), then [g1] (-4).
    The pipeline scores the gene set [{g1}] on the gene list [[g1, g2]]
    with the correlations [[-1, -4]]: the hit is at position 0 and the
    score is 1; on the ranked gene list the hit is at position 1 and the
    score is -1. *)
Example gsea_compute_scores_input_order :
  gsea_compute coarse_libm lcg 0%Z two_by_two
               first_gene 1 1 "gene_set"
               "diff_of_classes" "P" "N" ["P"; "N"]%string false (Some 0%Z)
               1 false false
  = Ok ([(Fin 1, NaN, NaN, sentinel)], [[0]], [[Fin 1; Fin 0]],
        ["S"%string])
  /\ ranking_metric coarse_libm two_by_two "diff_of_classes" "P" "N"
                    ["P"; "N"]%string false
     = Ok {| gene_name := ["g2"; "g1"]%string;
             rank := [Fin (-1); Fin (-4)] |}
  /\ enrichment_score coarse_libm lcg ["g2"; "g1"]%string ["g1"%string] 1
                      [Fin (-1); Fin (-4)] None 0%Z
     = Ok (Observed (Fin (-1)) [1] [Fin (-1); Fin 0], 0%Z).
Proof. repeat split; vm_compute; reflexivity. Qed.

(** ** The shape of the results in two-dimensional mode *)

Lemma rmapM_length {A B : Type} (f : A -> result B) (l : list A)
    (out : list B) :
  rmapM f l = Ok out -> length out = length l.
Proof. intros H. apply rmapM_inv, Forall2_length in H. lia. Qed.

Lemma rmapM_rows_length {A B : Type} (f : A -> result B) (n : nat)
    (L : list (list A)) (out : list (list B)) :
  rmapM (rmapM f) L = Ok out ->
  Forall (fun l => length l = n) L ->
  Forall (fun o => length o = n) out.
Proof.
  intros H. apply rmapM_inv in H.
  induction H as [|l o L out Hl _ IH]; intros HL; [constructor|].
  inversion HL; subst. constructor; [|now apply IH].
  now apply rmapM_length in Hl.
Qed.

Lemma zip_with_rows_length {A B C : Type} (g : A -> B -> C) (n : nat)
    (cors : list A) (T : list (list B)) :
  Forall (fun l => length l = n) T ->
  Forall (fun l => length l = n)
         (zip_with (fun cor fibres => map (g cor) fibres) cors T).
Proof.
  intros HT. revert cors.
  induction HT as [|l T Hl _ IH]; intros [|c cors]; simpl;
    try constructor; [now rewrite length_map' | apply IH].
Qed.

Lemma tensor_2d_shape_inv (M : libm) (G : random_source)
    (gene_mat : list (list gene)) (cor_mat : ndarray num)
    (gene_sets : gmap string (list gene)) (weighted_score_type : Q)
    (nperm : nat) (scale single : bool) (rs : rng G) es esnull hit_ind RES
    rs' :
  enrichment_score_tensor M G (Arr2 gene_mat) cor_mat gene_sets
                          weighted_score_type nperm scale single rs
  = Ok (es, esnull, hit_ind, RES, rs') ->
  length es = length gene_mat
  /\ length hit_ind = length gene_mat
  /\ length RES = length gene_mat
  /\ length esnull = length gene_mat
  /\ Forall (fun row => length row = size gene_sets - 1) esnull
  /\ rs' = rs.
Proof.
  revert weighted_score_type. intros w.
  unfold enrichment_score_tensor. cbv zeta.
  destruct (Qis0 w); [discriminate|].
  destruct (Qltb 0 w); [|discriminate].
  rewrite result_bind_Ok.
  destruct (decide (sorted_keys gene_sets = [])); [discriminate|].
  rewrite result_bind_Ok.
  destruct (rmapM _ gene_mat) as [ptt|] eqn:Hptt; [|discriminate].
  rewrite result_bind_Ok.
  destruct (rmapM _ ptt) as [hits|] eqn:Hhits; [|discriminate].
  rewrite result_bind_Ok.
  destruct cor_mat as [v|m|]; try discriminate.
  destruct (decide (length (map (map nabs) m) = length gene_mat)) as [Hm|];
    [|discriminate].
  destruct (rmapM _ (zip gene_mat (map (map nabs) m))) as [cors|] eqn:Hcors;
    [|discriminate].
  rewrite !result_bind_Ok. cbv beta iota.
  set (T0 := zip_with _ cors ptt).
  set (T := if scale then _ else T0).
  destruct (rmapM (rmapM (es_of_fibre single)) T) as [esm|] eqn:Hesm;
    [|discriminate].
  rewrite result_bind_Ok.
  destruct (rmapM last_item esm) as [es0|] eqn:Hes; [|discriminate].
  rewrite result_bind_Ok.
  destruct (rmapM last_item T) as [RES0|] eqn:HRES; [|discriminate].
  rewrite result_bind_Ok. intros [= <- <- <- <- <-].
  apply rmapM_length in Hhits, Hcors, Hes, HRES.
  pose proof (rmapM_length _ _ _ Hptt) as Hptt_len.
  pose proof (rmapM_length _ _ _ Hesm) as Hesm_len.
  rewrite length_zip in Hcors.
  assert (Hrows : Forall (fun l => length l = size gene_sets) ptt).
  { apply rmapM_inv in Hptt. clear -Hptt.
    induction Hptt as [|row fibres ? ? Hrow _ IH]; constructor; [|exact IH].
    apply rmapM_length in Hrow. now rewrite Hrow, length_sorted_keys. }
  assert (HT0 : length T0 = length gene_mat
                /\ Forall (fun l => length l = size gene_sets) T0).
  { split; [unfold T0; rewrite length_zip_with; lia|].
    now apply zip_with_rows_length. }
  assert (HT : length T = length gene_mat
               /\ Forall (fun l => length l = size gene_sets) T).
  { unfold T. destruct scale; [|exact HT0]. destruct HT0 as [Hl Hf].
    rewrite length_map'. split; [exact Hl|].
    apply Forall_map with (P := fun l => length l = size gene_sets);
      [|exact Hf].
    intros l Hlen. now rewrite length_map'. }
  destruct HT as [HTlen HTrows].
  pose proof (rmapM_rows_length _ _ _ _ Hesm HTrows) as Hesm_rows.
  rewrite length_map'. repeat split; try lia.
  apply Forall_map with (P := fun l => length l = size gene_sets);
    [|exact Hesm_rows].
  intros row Hrow. unfold but_last. rewrite length_take. lia.
Qed.

(** X13: with a gene matrix of two dimensions, whatever the engine returns
    has one score, one hit list, one running sum and one row of null
    scores per row of the gene matrix, that is per replicate, and each row
    of null scores has one entry per gene set but one; the random state is
    returned as it came. *)
Theorem enrichment_score_tensor_2d_shape :
  forall (M : libm) (G : random_source) (gene_mat : list (list gene))
         (cor_mat : ndarray num) (gene_sets : gmap string (list gene))
         (weighted_score_type : Q) (nperm : nat) (scale single : bool)
         (rs : rng G) es esnull hit_ind RES rs',
    enrichment_score_tensor M G (Arr2 gene_mat) cor_mat gene_sets
                            weighted_score_type nperm scale single rs
    = Ok (es, esnull, hit_ind, RES, rs') ->
    length es = length gene_mat
    /\ length hit_ind = length gene_mat
    /\ length RES = length gene_mat
    /\ length esnull = length gene_mat
    /\ Forall (fun row => length row = size gene_sets - 1) esnull
    /\ rs' = rs.
Proof.
  intros until rs'. apply tensor_2d_shape_inv.
Qed.

Lemma enrichment_score_tensor_2d_shape_witness :
  length [Fin 1; Fin (-1 # 2); Fin (-1)] = length three_orders
  /\ length [[0]; [1]; [2]] = length three_orders
  /\ length [[Fin 1; Fin (1 # 2); Fin 0];
             [Fin (-1 # 2); Fin (1 # 2); Fin 0];
             [Fin (-1 # 2); Fin (-1); Fin 0]] = length three_orders
  /\ length (@nil num :: [] :: [] :: []) = length three_orders
  /\ Forall (fun row : list num => length row = size one_set - 1)
            [[]; []; []]
  /\ 0%Z = 0%Z.
Proof.
  apply (enrichment_score_tensor_2d_shape coarse_libm lcg three_orders
           (Arr2 three_correls) one_set 1 2 false false 0%Z
           [Fin 1; Fin (-1 # 2); Fin (-1)] [[]; []; []] [[0]; [1]; [2]]
           [[Fin 1; Fin (1 # 2); Fin 0];
            [Fin (-1 # 2); Fin (1 # 2); Fin 0];
            [Fin (-1 # 2); Fin (-1); Fin 0]] 0%Z).
  vm_compute. reflexivity.
Defined.

Lemma map_rows_length {A B : Type} (g : A -> B) (n : nat)
    (T : list (list A)) :
  Forall (fun l => length l = n) T ->
  Forall (fun l => length l = n) (map (map g) T).
Proof.
  intros H. apply Forall_map with (P := fun l => length l = n); [|exact H].
  intros l Hl. now rewrite length_map'.
Qed.

(** X17: the engine of the test script, with a gene matrix of two
    dimensions, returns one score, one hit list, one running sum and one
    row of null scores per gene set, and each row of null scores has one
    entry per replicate but the last: there the masks are stacked on axis
    0. *)
Theorem test_script_tensor_2d_shape :
  forall (M : libm) (G : random_source) (gene_mat : list (list gene))
         (cor_mat : ndarray num) (gene_sets : gmap string (list gene))
         (weighted_score_type : Q) (nperm : nat) (scale single : bool)
         (rs : rng G) es esnull hit_ind RES rs',
    TestSsgsea.enrichment_score_tensor M G (Arr2 gene_mat) cor_mat gene_sets
                                       weighted_score_type nperm scale single
                                       rs
    = Ok (es, esnull, hit_ind, RES, rs') ->
    length es = size gene_sets
    /\ length hit_ind = size gene_sets
    /\ length RES = size gene_sets
    /\ length esnull = size gene_sets
    /\ Forall (fun row => length row = length gene_mat - 1) esnull
    /\ rs' = rs.
Proof.
  intros M G gene_mat cor_mat gene_sets w nperm scale single rs
         es esnull hit_ind RES rs'.
  unfold TestSsgsea.enrichment_score_tensor. cbv zeta.
  set (c0 := if Qis0 w then _ else _).
  destruct c0 as [c|] eqn:Ec0; [|discriminate].
  rewrite result_bind_Ok.
  set (c1 := match c with
             | Arr1 v => Arr1 (map nabs v)
             | Arr2 m => Arr2 (map (map nabs) m)
             | ArrN => ArrN
             end).
  destruct c1 as [v|m|] eqn:Ec1; try discriminate.
  destruct (decide (sorted_keys gene_sets = [])); [discriminate|].
  rewrite result_bind_Ok.
  destruct (decide (length m = length gene_mat)) as [Hm|]; [|discriminate].
  rewrite result_bind_Ok.
  destruct (rmapM _ (sorted_keys gene_sets)) as [ptt|] eqn:Hptt;
    [|discriminate].
  rewrite result_bind_Ok.
  destruct (rmapM _ ptt) as [hits|] eqn:Hhits; [|discriminate].
  rewrite !result_bind_Ok. cbv beta iota.
  set (T0 := map (map _) ptt).
  set (T := if scale then _ else T0).
  destruct (rmapM (rmapM (es_of_fibre single)) T) as [esm|] eqn:Hesm;
    [|discriminate].
  rewrite result_bind_Ok.
  destruct (rmapM last_item esm) as [es0|] eqn:Hes; [|discriminate].
  rewrite result_bind_Ok.
  destruct (rmapM last_item T) as [RES0|] eqn:HRES; [|discriminate].
  rewrite result_bind_Ok. intros [= <- <- <- <- <-].
  apply rmapM_length in Hhits, Hes, HRES.
  pose proof (rmapM_length _ _ _ Hptt) as Hptt_len.
  pose proof (rmapM_length _ _ _ Hesm) as Hesm_len.
  rewrite length_sorted_keys in Hptt_len.
  assert (Hrows : Forall (fun l => length l = length gene_mat) ptt).
  { apply rmapM_inv in Hptt. clear -Hptt Hm.
    induction Hptt as [|key fibres ? ? Hkey _ IH]; constructor; [|exact IH].
    destruct (getitem gene_sets key) as [gs|]; [|discriminate].
    rewrite result_bind_Ok in Hkey.
    apply rmapM_length in Hkey. rewrite Hkey, length_zip. lia. }
  assert (HT0 : length T0 = size gene_sets
                /\ Forall (fun l => length l = length gene_mat) T0).
  { split; [unfold T0; now rewrite length_map'|].
    now apply map_rows_length. }
  assert (HT : length T = size gene_sets
               /\ Forall (fun l => length l = length gene_mat) T).
  { unfold T. destruct scale; [|exact HT0]. destruct HT0 as [Hl Hf].
    rewrite length_map'. split; [exact Hl|]. now apply map_rows_length. }
  destruct HT as [HTlen HTrows].
  pose proof (rmapM_rows_length _ _ _ _ Hesm HTrows) as Hesm_rows.
  rewrite length_map'. repeat split; try lia.
  apply Forall_map with (P := fun l => length l = length gene_mat);
    [|exact Hesm_rows].
  intros row Hrow. unfold but_last. rewrite length_take. lia.
Qed.

Lemma test_script_tensor_2d_shape_witness :
  length [Fin (-1)] = size one_set
  /\ length [[2]] = size one_set
  /\ length [[Fin (-1 # 2); Fin (-1); Fin 0]] = size one_set
  /\ length [[Fin 1; Fin (-1 # 2)]] = size one_set
  /\ Forall (fun row : list num => length row = length three_orders - 1)
            [[Fin 1; Fin (-1 # 2)]]
  /\ 0%Z = 0%Z.
Proof.
  apply (test_script_tensor_2d_shape coarse_libm lcg three_orders
           (Arr2 three_correls) one_set 1 2 false false 0%Z
           [Fin (-1)] [[Fin 1; Fin (-1 # 2)]] [[2]]
           [[Fin (-1 # 2); Fin (-1); Fin 0]] 0%Z).
  vm_compute. reflexivity.
Defined.

(** ** The hit lists *)

Lemma flatnonzero_from_spec (tag : list bool) (k i : nat) :
  i ∈ flatnonzero_from k tag <-> exists j, i = k + j /\ tag !! j = Some true.
Proof.
  revert k. induction tag as [|b tag IH]; intros k; simpl.
  - split; [intros H; inversion H | intros (j & _ & H); discriminate].
  - assert (Hrest : i ∈ flatnonzero_from (S k) tag
                    <-> exists j, i = k + S j /\ tag !! j = Some true).
    { rewrite IH. split; intros (j & -> & Hj); exists j; split; auto; lia. }
    destruct b.
    + rewrite elem_of_cons, Hrest. split.
      * intros [-> | (j & -> & Hj)];
          [exists 0; split; [lia | reflexivity] | exists (S j); auto].
      * intros ([|j] & -> & Hj); [left; lia | right; eauto].
    + rewrite Hrest. split.
      * intros (j & -> & Hj). exists (S j). auto.
      * intros ([|j] & -> & Hj); [discriminate | eauto].
Qed.

Lemma flatnonzero_from_sorted (tag : list bool) (k : nat) :
  StronglySorted lt (flatnonzero_from k tag).
Proof.
  revert k. induction tag as [|b tag IH]; intros k; simpl; [constructor|].
  destruct b; [|apply IH]. constructor; [apply IH|].
  apply Forall_forall. intros i (j & -> & _)%flatnonzero_from_spec. lia.
Qed.

(** X14: in one-dimensional mode, the hit list that the tensor engine
    returns for a gene set holds, in increasing order, exactly the
    positions of the gene list whose gene is in the gene set. *)
Theorem enrichment_score_tensor_hit_indices :
  forall (M : libm) (G : random_source) (gene_list : list gene)
         (cor : list num) (gene_sets : gmap string (list gene))
         (weighted_score_type : Q) (nperm : nat) (scale single : bool)
         (rs : rng G) es esnull hit_ind RES rs' (k : nat) (key : string)
         (gene_set : list gene),
    enrichment_score_tensor M G (Arr1 gene_list) (Arr1 cor) gene_sets
                            weighted_score_type nperm scale single rs
    = Ok (es, esnull, hit_ind, RES, rs') ->
    sorted_keys gene_sets !! k = Some key ->
    gene_sets !! key = Some gene_set ->
    exists hits,
      hit_ind !! k = Some hits
      /\ StronglySorted lt hits
      /\ forall i, i ∈ hits
                   <-> exists g, gene_list !! i = Some g /\ g ∈ gene_set.
Proof.
  intros M G gene_list cor gene_sets w nperm scale single rs
         es esnull hit_ind RES rs' k key gene_set Hrun Hkey Hset.
  apply tensor_1d_hits in Hrun as ->.
  exists (flatnonzero (in1d gene_list gene_set)).
  split; [now rewrite lookup_map, Hkey; simpl; rewrite Hset|].
  split; [apply flatnonzero_from_sorted|].
  intros i. unfold flatnonzero. rewrite flatnonzero_from_spec.
  unfold in1d. split.
  - intros (j & -> & Hj). rewrite lookup_map in Hj.
    destruct (gene_list !! j) as [g|] eqn:Eg; [|discriminate].
    exists g. split; [exact Eg|]. simpl in Hj.
    injection Hj as Hj. now apply bool_decide_eq_true in Hj.
  - intros (g & Hg & Hin). exists i. split; [reflexivity|].
    rewrite lookup_map, Hg. simpl. now rewrite bool_decide_eq_true_2.
Qed.

Lemma enrichment_score_tensor_hit_indices_witness :
  exists hits,
    [[0]] !! 0 = Some hits
    /\ StronglySorted lt hits
    /\ forall i, i ∈ hits
                 <-> exists g, five_genes !! i = Some g /\ g ∈ ["A"%string].
Proof.
  apply (enrichment_score_tensor_hit_indices coarse_libm lcg five_genes
           five_correl one_set 1 2 false false 0%Z
           [Fin 1] [[Fin (-1); Fin 1]] [[0]]
           [[Fin 1; Fin (3 # 4); Fin (1 # 2); Fin (1 # 4); Fin 0]]
           1293799192%Z 0 "S"%string ["A"%string]);
    [vm_compute; reflexivity | reflexivity | reflexivity].
Defined.

(** ** Scaling by the number of genes *)

Section Scale.
Variable N : nat.
Hypothesis N_pos : N <> 0.

Lemma scale_den_pos : (0 < Z.of_nat N # 1)%Q.
Proof. unfold Qlt. simpl. lia. Qed.

Lemma scale_Fin (q : Q) : scale_by N (Fin q) = fin (q / (Z.of_nat N # 1)).
Proof.
  unfold scale_by, ndiv, of_nat.
  assert (Qis0 (Z.of_nat N # 1) = false) as ->; [|reflexivity].
  apply Qis0_false. pose proof scale_den_pos. lra.
Qed.

Lemma scale_PInf : scale_by N PInf = PInf.
Proof.
  unfold scale_by, ndiv, of_nat.
  assert (Qltb (Z.of_nat N # 1) 0 = false) as ->; [|reflexivity].
  apply Qltb_ge. pose proof scale_den_pos. lra.
Qed.

Lemma scale_NInf : scale_by N NInf = NInf.
Proof.
  unfold scale_by, ndiv, of_nat.
  assert (Qltb (Z.of_nat N # 1) 0 = false) as ->; [|reflexivity].
  apply Qltb_ge. pose proof scale_den_pos. lra.
Qed.

Lemma scale_NaN : scale_by N NaN = NaN.
Proof. reflexivity. Qed.

Lemma scale_zero : scale_by N (Fin 0) = Fin 0.
Proof.
  rewrite scale_Fin. change (Fin 0) with (fin 0). apply fin_eq.
  unfold Qdiv. ring.
Qed.

Lemma scale_nadd (a b : num) : scale_by N (nadd a b) = nadd (scale_by N a) (scale_by N b).
Proof.
  pose proof scale_den_pos as Hpos.
  destruct a as [x| | |], b as [y| | |];
    rewrite ?scale_Fin, ?scale_PInf, ?scale_NInf, ?scale_NaN;
    try reflexivity;
    unfold fin; cbn [nadd]; unfold fin;
    rewrite ?scale_Fin, ?scale_PInf, ?scale_NInf, ?scale_NaN;
    try reflexivity.
  apply fin_eq. rewrite !Qred_correct. field. lra.
Qed.

Lemma scale_nltb (a b : num) : nltb (scale_by N a) (scale_by N b) = nltb a b.
Proof.
  pose proof scale_den_pos as Hpos.
  assert (Hinv : (0 < / (Z.of_nat N # 1))%Q) by now apply Qinv_lt_0_compat.
  destruct a as [x| | |], b as [y| | |];
    rewrite ?scale_Fin, ?scale_PInf, ?scale_NInf, ?scale_NaN;
    try reflexivity.
  unfold fin, nltb. apply eq_true_iff_eq.
  rewrite !Qltb_lt, !Qred_correct. unfold Qdiv.
  now rewrite Qmult_lt_r.
Qed.

Lemma scale_is_nan (a : num) : is_nan (scale_by N a) = is_nan a.
Proof.
  destruct a; rewrite ?scale_Fin, ?scale_PInf, ?scale_NInf, ?scale_NaN;
    reflexivity.
Qed.

Lemma scale_nabs (a : num) : nabs (scale_by N a) = scale_by N (nabs a).
Proof.
  pose proof scale_den_pos as Hpos.
  assert (Hinv : (0 < / (Z.of_nat N # 1))%Q) by now apply Qinv_lt_0_compat.
  destruct a as [x| | |];
    rewrite ?scale_Fin, ?scale_PInf, ?scale_NInf, ?scale_NaN;
    unfold fin; cbn [nabs]; unfold fin;
    rewrite ?scale_Fin, ?scale_PInf; try reflexivity.
  apply fin_eq. rewrite !Qred_correct. unfold Qdiv.
  rewrite Qabs_Qmult. rewrite (Qabs_pos (/ _)) by lra. reflexivity.
Qed.

Lemma scale_nmax2 (a b : num) : nmax2 (scale_by N a) (scale_by N b) = scale_by N (nmax2 a b).
Proof.
  unfold nmax2. rewrite !scale_is_nan, scale_nltb.
  destruct (is_nan a); [reflexivity|].
  destruct (is_nan b); [reflexivity|]. now destruct (nltb a b).
Qed.

Lemma scale_nmin2 (a b : num) : nmin2 (scale_by N a) (scale_by N b) = scale_by N (nmin2 a b).
Proof.
  unfold nmin2. rewrite !scale_is_nan, scale_nltb.
  destruct (is_nan a); [reflexivity|].
  destruct (is_nan b); [reflexivity|]. now destruct (nltb b a).
Qed.

Lemma scale_extremum (mx mn : num) :
  extremum (scale_by N mx) (scale_by N mn) = scale_by N (extremum mx mn).
Proof.
  unfold extremum, ngtb. rewrite !scale_nabs, scale_nltb.
  now destruct (nltb _ _).
Qed.

Lemma scale_foldl (f : num -> num -> num) (l : list num) (acc : num) :
  (forall a b, f (scale_by N a) (scale_by N b) = scale_by N (f a b)) ->
  foldl f (scale_by N acc) (map (scale_by N) l) = scale_by N (foldl f acc l).
Proof.
  intros Hf. revert acc. induction l as [|x l IH]; intros acc; simpl;
    [reflexivity|].
  now rewrite Hf, IH.
Qed.

Lemma scale_es_of_fibre (single : bool) (r : list num) :
  es_of_fibre single (map (scale_by N) r) = scale_by N <$> es_of_fibre single r.
Proof.
  unfold es_of_fibre. destruct single.
  - simpl. unfold nsum. rewrite <- scale_zero at 1.
    rewrite scale_foldl; [reflexivity|].
    intros a b. symmetry. apply scale_nadd.
  - destruct r as [|x r]; [reflexivity|]. cbn [map np_max np_min].
    rewrite !result_bind_Ok.
    rewrite (scale_foldl nmax2) by apply scale_nmax2.
    rewrite (scale_foldl nmin2) by apply scale_nmin2.
    simpl. now rewrite scale_extremum.
Qed.
End Scale.

Lemma rmapM_map_commute {A B : Type} (f : A -> result B) (g : A -> A)
    (g' : B -> B) (l : list A) :
  (forall x, f (g x) = g' <$> f x) ->
  rmapM f (map g l) = map g' <$> rmapM f l.
Proof.
  intros H. induction l as [|x l IH]; simpl; [reflexivity|].
  rewrite H, IH. destruct (f x); [|reflexivity]. simpl.
  now destruct (rmapM f l).
Qed.

Lemma last_item_map {A : Type} (g : A -> A) (l : list A) :
  last_item (map g l) = g <$> last_item l.
Proof.
  unfold last_item. change (map g l) with (g <$> l). rewrite fmap_last.
  now destruct (last l).
Qed.

Lemma but_last_map {A : Type} (g : A -> A) (l : list A) :
  but_last (map g l) = map g (but_last l).
Proof.
  unfold but_last. rewrite length_map'.
  change (map g l) with (g <$> l). now rewrite fmap_take.
Qed.

(** X15: in one-dimensional mode, on a gene list that is not empty,
    [scale=True] divides by the number of genes every score, every null
    score and every entry of the running sums that [scale=False] gives;
    the hit lists, the random draws and the errors are the same. *)
Theorem enrichment_score_tensor_scale :
  forall (M : libm) (G : random_source) (gene_list : list gene)
         (cor_mat : ndarray num) (gene_sets : gmap string (list gene))
         (weighted_score_type : Q) (nperm : nat) (single : bool)
         (rs : rng G),
    gene_list <> [] ->
    let N := length gene_list in
    enrichment_score_tensor M G (Arr1 gene_list) cor_mat gene_sets
                            weighted_score_type nperm true single rs
    = (fun '(es, esnull, hit_ind, RES, rs') =>
         (map (scale_by N) es, map (map (scale_by N)) esnull, hit_ind,
          map (map (scale_by N)) RES, rs'))
      <$> enrichment_score_tensor M G (Arr1 gene_list) cor_mat gene_sets
                                  weighted_score_type nperm false single rs.
Proof.
  intros M G gene_list cor_mat gene_sets w nperm single rs Hne N.
  assert (HN : N <> 0) by (unfold N; destruct gene_list; [congruence|discriminate]).
  unfold enrichment_score_tensor. cbv zeta.
  destruct (if Qis0 w then _ else _) as [c|]; [|reflexivity].
  rewrite !result_bind_Ok.
  destruct (decide (sorted_keys gene_sets = [])); [reflexivity|].
  rewrite !result_bind_Ok.
  destruct (rmapM _ (sorted_keys gene_sets)) as [tags|]; [|reflexivity].
  rewrite !result_bind_Ok.
  destruct (decide (nperm = 0)); [reflexivity|].
  rewrite !result_bind_Ok.
  destruct (shuffle_tags G nperm tags rs) as [T rs1].
  destruct (match _ with Arr1 v => _ | _ => _ end) as [cor|];
    [|reflexivity].
  rewrite !result_bind_Ok. cbv beta iota. fold N.
  set (R := zip_with _ _ T).
  change (fun x : num => ndiv x (of_nat N)) with (scale_by N).
  assert (Hrow : forall fibres,
             rmapM (es_of_fibre single) (map (map (scale_by N)) fibres)
             = map (scale_by N) <$> rmapM (es_of_fibre single) fibres).
  { intros fibres. apply rmapM_map_commute. intros r.
    now apply scale_es_of_fibre. }
  rewrite (rmapM_map_commute _ _ _ R Hrow).
  rewrite (rmapM_map_commute last_item (map (map (scale_by N)))
             (map (scale_by N)) R (last_item_map (map (scale_by N)))).
  destruct (rmapM (rmapM (es_of_fibre single)) R) as [esm|]; [|reflexivity].
  cbn [fmap result_fmap]. rewrite !result_bind_Ok.
  rewrite (rmapM_map_commute last_item (map (scale_by N)) (scale_by N) esm
             (last_item_map (scale_by N))).
  destruct (rmapM last_item esm) as [es|]; [|reflexivity].
  cbn [fmap result_fmap]. rewrite !result_bind_Ok.
  destruct (rmapM last_item R) as [RES|]; [|reflexivity].
  cbn [fmap result_fmap]. rewrite !result_bind_Ok.
  assert (map but_last (map (map (scale_by N)) esm)
          = map (map (scale_by N)) (map but_last esm)) as ->; [|reflexivity].
  rewrite !List.map_map. apply List.map_ext.
  intros row. apply but_last_map.
Qed.

Lemma enrichment_score_tensor_scale_witness :
  enrichment_score_tensor coarse_libm lcg (Arr1 five_genes)
                          (Arr1 five_correl) one_set 1 2 true true 0%Z
  = (fun '(es, esnull, hit_ind, RES, rs') =>
       (map (scale_by (length five_genes)) es,
        map (map (scale_by (length five_genes))) esnull, hit_ind,
        map (map (scale_by (length five_genes))) RES, rs'))
    <$> enrichment_score_tensor coarse_libm lcg (Arr1 five_genes)
                                (Arr1 five_correl) one_set 1 2 false true
                                0%Z.
Proof.
  apply (enrichment_score_tensor_scale coarse_libm lcg five_genes
           (Arr1 five_correl) one_set 1 2 true 0%Z).
  discriminate.
Defined.

(** ** The phenotype pipeline *)







